(** * Calculator-Website: the expression pipeline of [script.js]

    [tokenizeExpression], [toPostfix] (Shunting Yard) and
    [evaluateExpression], embedded as Rocq functions, together with the
    part of the JavaScript runtime they call.

    - A JavaScript string is a [string]: each [ascii] is one code unit
      below 256.
    - A JavaScript Number is an IEEE 754 binary64 value, here a
      [spec_float] with precision 53 and maximal exponent 1024, rounded
      to nearest-even by the operations of [SpecFloat].
    - An array used as a stack is a list whose head is the top of the
      stack; an array used as a queue is a list in index order. *)

From Stdlib Require Import ZArith List Bool Ascii String Lia Permutation.
From Stdlib Require Import SpecFloat.
Import ListNotations.

Local Open Scope string_scope.
Local Open Scope Z_scope.
Local Open Scope list_scope.

(** ** The JavaScript runtime used by the script *)

Module JS.

(** *** Numbers *)

Definition number : Type := spec_float.

Definition prec : Z := 53.
Definition emax : Z := 1024.

Definition NaN : number := S754_nan.
Definition pos_zero : number := S754_zero false.
Definition neg_zero : number := S754_zero true.
Definition pos_inf : number := S754_infinity false.
Definition neg_inf : number := S754_infinity true.

(** The Number nearest to the integer [n]. *)
Definition of_Z (n : Z) : number := binary_normalize prec emax n 0 false.

Definition one : number := of_Z 1.

(** The Number nearest to [a / b], negated when [neg] is set: the
    quotient is rounded once. *)
Definition of_ratio (neg : bool) (a b : positive) : number :=
  SFdiv prec emax (S754_finite neg a 0) (S754_finite false b 0).

(** The Number nearest to [m * 10 ^ e], for the mathematical value of a
    decimal literal with digits [m] and decimal exponent [e]. *)
Definition of_decimal (neg : bool) (m : Z) (e : Z) : number :=
  match m with
  | Zpos p =>
      if 0 <=? e
      then binary_normalize prec emax (cond_Zopp neg (Zpos p * 10 ^ e)) 0 false
      else of_ratio neg p (Z.to_pos (10 ^ (- e)))
  | _ => S754_zero neg
  end.

Definition is_nan (x : number) : bool :=
  match x with
  | S754_nan => true
  | _ => false
  end.

Definition add : number -> number -> number := SFadd prec emax.
Definition sub : number -> number -> number := SFsub prec emax.
Definition mul : number -> number -> number := SFmul prec emax.
Definition div : number -> number -> number := SFdiv prec emax.

(** The integer a Number denotes, when it denotes one. *)
Definition integral_value (x : number) : option Z :=
  match x with
  | S754_zero _ => Some 0
  | S754_finite s m e =>
      if 0 <=? e then Some (cond_Zopp s (Zpos m * 2 ^ e))
      else if (Zpos m) mod 2 ^ (- e) =? 0
           then Some (cond_Zopp s (Zpos m / 2 ^ (- e)))
           else None
  | _ => None
  end.

Definition is_odd_integral (x : number) : bool :=
  match integral_value x with
  | Some n => Z.odd n
  | None => false
  end.

(** [x > +0] *)
Definition is_positive (x : number) : bool :=
  match x with
  | S754_infinity false | S754_finite false _ _ => true
  | _ => false
  end.

(** [m = fst (odd_part m) * 2 ^ snd (odd_part m)] with an odd first
    component. *)
Fixpoint odd_part (m : positive) : positive * Z :=
  match m with
  | xO p => let (q, k) := odd_part p in (q, k + 1)
  | _ => (m, 0)
  end.

(** [m * 2 ^ e] as a Number when it is one, exactly. *)
Definition round_exact (neg : bool) (m : positive) (e : Z) : option number :=
  match binary_round prec emax neg m e with
  | S754_finite s' m' e' =>
      let lo := Z.min e e' in
      if Zpos m' * 2 ^ (e' - lo) =? Zpos m * 2 ^ (e - lo)
      then Some (S754_finite s' m' e')
      else None
  | _ => None
  end.

(** The power of a finite non-zero base [(-1)^s * m * 2^e] with a
    non-zero integer exponent [n], when that power is a binary64 value. *)
Definition exact_power (s : bool) (m : positive) (e : Z) (n : Z) : option number :=
  let (mo, k) := odd_part m in
  let neg := s && Z.odd n in
  if 0 <? n then round_exact neg (Z.to_pos (Zpos mo ^ n)) ((e + k) * n)
  else match mo with
       | xH => round_exact neg 1 ((e + k) * n)
       | _ => None
       end.

Section Exponentiate.

(** ECMAScript leaves the general case of [**] to the implementation
    ("an implementation-approximated value"); [pow_approx] stands for
    the implementation's choice wherever the power is not a binary64
    value. *)
Variable pow_approx : number -> number -> number.

(** [Number::exponentiate (base, exponent)], the [**] operator. *)
Definition exponentiate (base exponent : number) : number :=
  match exponent with
  | S754_nan => NaN
  | S754_zero _ => one
  | _ =>
    match base with
    | S754_nan => NaN
    | S754_infinity false =>
        if is_positive exponent then pos_inf else pos_zero
    | S754_infinity true =>
        if is_positive exponent
        then (if is_odd_integral exponent then neg_inf else pos_inf)
        else (if is_odd_integral exponent then neg_zero else pos_zero)
    | S754_zero false =>
        if is_positive exponent then pos_zero else pos_inf
    | S754_zero true =>
        if is_positive exponent
        then (if is_odd_integral exponent then neg_zero else pos_zero)
        else (if is_odd_integral exponent then neg_inf else pos_inf)
    | S754_finite s m e =>
        match exponent with
        | S754_infinity sx =>
            match SFcompare (SFabs base) one with
            | Some Gt => if sx then pos_zero else pos_inf
            | Some Lt => if sx then pos_inf else pos_zero
            | _ => NaN
            end
        | _ =>
            match integral_value exponent with
            | None => if s then NaN else pow_approx base exponent
            | Some n =>
                match exact_power s m e n with
                | Some r => r
                | None => pow_approx base exponent
                end
            end
        end
    end
  end.

End Exponentiate.

(** *** Strings *)

Definition code (c : ascii) : Z := Z.of_N (N_of_ascii c).

(** WhiteSpace and LineTerminator code units below 256: TAB, LF, VT, FF,
    CR, SP and NBSP. [String.prototype.trim] and the conversion of a
    string to a Number strip exactly these. *)
Definition isWhiteSpace (c : ascii) : bool :=
  let n := code c in
  ((9 <=? n) && (n <=? 13)) || (n =? 32) || (n =? 160).

Fixpoint trimStart (s : string) : string :=
  match s with
  | String c r => if isWhiteSpace c then trimStart r else s
  | EmptyString => EmptyString
  end.

Fixpoint trimEnd (s : string) : string :=
  match s with
  | String c r =>
      match trimEnd r with
      | EmptyString => if isWhiteSpace c then EmptyString else String c EmptyString
      | t => String c t
      end
  | EmptyString => EmptyString
  end.

(** [s.trim()] *)
Definition trim (s : string) : string := trimEnd (trimStart s).

(** [s.split(sep)] for a one-character separator: the fragments between
    the occurrences of [sep], empty ones included; the empty string
    splits into one empty fragment. *)
Fixpoint split (sep : ascii) (s : string) : list string :=
  match s with
  | EmptyString => [EmptyString]
  | String c r =>
      if Ascii.eqb c sep then EmptyString :: split sep r
      else match split sep r with
           | f :: fs => String c f :: fs
           | [] => [String c EmptyString]
           end
  end.

(** *** Conversion of strings to Numbers (StringToNumber) *)

(** The value of [c] as a digit in the given radix. *)
Definition digit_value (radix : Z) (c : ascii) : option Z :=
  let n := code c in
  let d := if (48 <=? n) && (n <=? 57) then n - 48
           else if (97 <=? n) && (n <=? 122) then n - 87
           else if (65 <=? n) && (n <=? 90) then n - 55
           else radix in
  if d <? radix then Some d else None.

(** Reads the longest run of digits at the front of [s]: the value
    accumulated onto [acc], the number of digits read, and the rest. *)
Fixpoint read_digits (radix acc : Z) (count : nat) (s : string) : Z * nat * string :=
  match s with
  | String c r =>
      match digit_value radix c with
      | Some d => read_digits radix (acc * radix + d) (S count) r
      | None => (acc, count, s)
      end
  | EmptyString => (acc, count, s)
  end.

(** An optional ExponentPart, then the end of the literal. *)
Definition parse_exponent (s : string) : option Z :=
  match s with
  | EmptyString => Some 0
  | String c r =>
      if (Ascii.eqb c "e" || Ascii.eqb c "E")%bool then
        let (neg, r') :=
          match r with
          | String "+" r' => (false, r')
          | String "-" r' => (true, r')
          | _ => (false, r)
          end in
        match read_digits 10 0 0 r' with
        | (v, S _, EmptyString) => Some (cond_Zopp neg v)
        | _ => None
        end
      else None
  end.

(** StrUnsignedDecimalLiteral: [Infinity], [ddd.ddd], [.ddd] or [ddd],
    the last three with an optional exponent. *)
Definition parse_unsigned_decimal (neg : bool) (s : string) : option number :=
  if String.eqb s "Infinity" then Some (S754_infinity neg)
  else
    let '(ip, ni, r1) := read_digits 10 0 0 s in
    let '(m, nf, r2) :=
      match r1 with
      | String "." r => read_digits 10 ip 0 r
      | _ => (ip, 0%nat, r1)
      end in
    match (ni + nf)%nat with
    | O => None
    | _ =>
        match parse_exponent r2 with
        | Some e => Some (of_decimal neg m (e - Z.of_nat nf))
        | None => None
        end
    end.

(** NonDecimalIntegerLiteral: [0x], [0o] or [0b] and at least one digit. *)
Definition parse_non_decimal (s : string) : option number :=
  match s with
  | String "0" (String c r) =>
      let radix :=
        if (Ascii.eqb c "x" || Ascii.eqb c "X")%bool then Some 16
        else if (Ascii.eqb c "o" || Ascii.eqb c "O")%bool then Some 8
        else if (Ascii.eqb c "b" || Ascii.eqb c "B")%bool then Some 2
        else None in
      match radix with
      | Some rx =>
          match read_digits rx 0 0 r with
          | (v, S _, EmptyString) => Some (of_Z v)
          | _ => None
          end
      | None => None
      end
  | _ => None
  end.

(** StrNumericLiteral *)
Definition parse_numeric (s : string) : option number :=
  match parse_non_decimal s with
  | Some n => Some n
  | None =>
      match s with
      | String "+" r => parse_unsigned_decimal false r
      | String "-" r => parse_unsigned_decimal true r
      | _ => parse_unsigned_decimal false s
      end
  end.

(** The Number a string converts to: white space around the literal is
    dropped, the empty literal is [+0], and anything that is not a
    numeric literal is NaN. *)
Definition StringToNumber (s : string) : number :=
  match trim s with
  | EmptyString => pos_zero
  | t =>
      match parse_numeric t with
      | Some n => n
      | None => NaN
      end
  end.

(** *** Values *)

(** The values the script handles: array elements and variables hold a
    string, a Number, or [undefined] (what [pop] answers on an empty
    array). *)
Inductive jsval : Type :=
  | JUndefined
  | JNumber (n : number)
  | JString (s : string).

Definition ToNumber (v : jsval) : number :=
  match v with
  | JUndefined => NaN
  | JNumber n => n
  | JString s => StringToNumber s
  end.

(** The global [isNaN(v)] converts its argument to a Number first. *)
Definition isNaN (v : jsval) : bool := is_nan (ToNumber v).

(** [Number(v)] *)
Definition Number (v : jsval) : number := ToNumber v.

(** [v == s] for a string literal [s]: a string is compared as a string,
    a Number with the Number [s] converts to, and [undefined] equals no
    string. *)
Definition loose_eq_string (v : jsval) (s : string) : bool :=
  match v with
  | JUndefined => false
  | JNumber n => SFeqb n (StringToNumber s)
  | JString t => String.eqb t s
  end.

(** [v === s] for a string literal [s], as [switch] and [includes]
    compare. *)
Definition strict_eq_string (v : jsval) (s : string) : bool :=
  match v with
  | JString t => String.eqb t s
  | _ => false
  end.

(** [arr.includes(v)] for an array of strings. *)
Definition includes (arr : list string) (v : jsval) : bool :=
  existsb (strict_eq_string v) arr.

(** [arr.pop()]: the last element and the shortened array, or
    [undefined] on an empty array. *)
Definition pop (arr : list jsval) : jsval * list jsval :=
  match arr with
  | x :: rest => (x, rest)
  | [] => (JUndefined, [])
  end.

(** [arr.pop()] on an array that holds Numbers only. *)
Definition pop_number (arr : list number) : jsval * list number :=
  match arr with
  | x :: rest => (JNumber x, rest)
  | [] => (JUndefined, [])
  end.

(** [a >= b] where each side is a Number read from an object, [None]
    for a missing property: [undefined] converts to NaN and every
    comparison with NaN is false. *)
Definition ge_property (a b : option Z) : bool :=
  match a, b with
  | Some x, Some y => y <=? x
  | _, _ => false
  end.

(** *** Case conversion and arrays of strings *)

(** The lower case of a code unit below 256: the letters A to Z and the
    capital letters of Latin-1 (all of U+00C0 to U+00DE but the
    multiplication sign) move up by 32. *)
Definition lower_unit (c : ascii) : Z :=
  let n := code c in
  if ((65 <=? n) && (n <=? 90)) || ((192 <=? n) && (n <=? 222) && negb (n =? 215))
  then n + 32 else n.

(** The upper case of a code unit below 256, as code units: the letters
    a to z and the small letters of Latin-1 (U+00E0 to U+00FE but the
    division sign) move down by 32, the micro sign becomes U+039C, the
    sharp s becomes SS and y with diaeresis becomes U+0178. *)
Definition upper_unit (c : ascii) : list Z :=
  let n := code c in
  if ((97 <=? n) && (n <=? 122)) || ((224 <=? n) && (n <=? 254) && negb (n =? 247))
  then [n - 32]
  else if n =? 181 then [924]
  else if n =? 223 then [83; 83]
  else if n =? 255 then [376]
  else [n].

(** [s.toLowerCase()] and [s.toUpperCase()], as lists of code units: the
    upper case of a string of code units below 256 need not be one. *)
Fixpoint toLowerCase (s : string) : list Z :=
  match s with
  | EmptyString => []
  | String c r => lower_unit c :: toLowerCase r
  end.

Fixpoint toUpperCase (s : string) : list Z :=
  match s with
  | EmptyString => []
  | String c r => upper_unit c ++ toUpperCase r
  end.

(** [a === b] for two strings given by their code units. *)
Fixpoint units_eqb (a b : list Z) : bool :=
  match a, b with
  | [], [] => true
  | x :: a', y :: b' => (x =? y) && units_eqb a' b'
  | _, _ => false
  end.

(** [arr[i]] for an array of strings is [nth_error arr i], [None] being
    [undefined]. [a + b] for two such elements: a string on either side
    makes it the concatenation, [undefined] reading as the string
    "undefined"; [undefined + undefined] is NaN. *)
Definition plus_elements (a b : option string) : jsval :=
  match a, b with
  | Some s, Some t => JString (s ++ t)
  | Some s, None => JString (s ++ "undefined")
  | None, Some t => JString ("undefined" ++ t)
  | None, None => JNumber NaN
  end.

(** The Number an element converts to in [-], [*] and [/]. *)
Definition element_number (a : option string) : number :=
  match a with
  | Some s => StringToNumber s
  | None => NaN
  end.

(** [a === s] for an element [a] and a string literal [s]. *)
Definition element_is (a : option string) (s : string) : bool :=
  match a with
  | Some t => String.eqb t s
  | None => false
  end.

End JS.

Import JS.

(** ** The script *)

(** [const operators = ['+', '-', '*', '/', '^']] *)
Definition operators : list string := ["+"; "-"; "*"; "/"; "^"].

(** [operatorPrecendence[key]], [None] when the lookup does not give a
    Number: the table has the five operators as its own properties, and
    what a key inherits from [Object.prototype] is no Number and
    compares like [undefined]. *)
Definition operatorPrecendence (key : jsval) : option Z :=
  match key with
  | JString s =>
      if String.eqb s "+" then Some 1
      else if String.eqb s "-" then Some 1
      else if String.eqb s "*" then Some 2
      else if String.eqb s "/" then Some 2
      else if String.eqb s "^" then Some 3
      else None
  | _ => None
  end.

(** [isOperator(char)]: [operators.includes(char)] *)
Definition isOperator (char : jsval) : bool := includes operators char.

(** *** [evaluateExpression] *)

Section Evaluate.

Variable pow_approx : number -> number -> number.

(** One turn of the [for] loop of [evaluateExpression]: [evalStack]
    before and after the token [expression[i]]. Both operands of an
    operator come from [evalStack], so each is a Number or [undefined]
    and [+] is the addition of Numbers. When the token is an operator the
    [switch] always finds its case. *)
Definition eval_token (evalStack : list number) (token : jsval) : list number :=
  if negb (isNaN token) then Number token :: evalStack
  else if isOperator token then
    let (num1, evalStack) := pop_number evalStack in
    let (num2, evalStack) := pop_number evalStack in
    if strict_eq_string token "+" then add (ToNumber num2) (ToNumber num1) :: evalStack
    else if strict_eq_string token "-" then sub (ToNumber num2) (ToNumber num1) :: evalStack
    else if strict_eq_string token "*" then mul (ToNumber num2) (ToNumber num1) :: evalStack
    else if strict_eq_string token "/" then div (ToNumber num2) (ToNumber num1) :: evalStack
    else if strict_eq_string token "^"
         then exponentiate pow_approx (ToNumber num2) (ToNumber num1) :: evalStack
    else evalStack
  else evalStack.

(** [evalStack] when the loop ends. *)
Definition eval_loop (expression : list jsval) : list number :=
  fold_left eval_token expression [].

(** [evalStack[0]]: the element pushed first, [undefined] when the array
    is empty. *)
Definition index0 (evalStack : list number) : jsval :=
  last (map JNumber evalStack) JUndefined.

Definition evaluateExpression (expression : list jsval) : jsval :=
  index0 (eval_loop expression).

End Evaluate.

(** *** [toPostfix] *)

(** The loop of the [')'] branch: while [currentOperator != '('], push
    it to the output queue and pop the next one. Nothing bounds the
    number of turns, so the model counts them down from [fuel]; [None]
    says the loop was still running when [fuel] turns were done. *)
Fixpoint pop_until_open (fuel : nat) (currentOperator : jsval)
    (operationStack outputQueue : list jsval) : option (list jsval * list jsval) :=
  if negb (loose_eq_string currentOperator "(") then
    match fuel with
    | O => None
    | S fuel' =>
        let outputQueue := outputQueue ++ [currentOperator] in
        let (currentOperator, operationStack) := pop operationStack in
        pop_until_open fuel' currentOperator operationStack outputQueue
    end
  else Some (operationStack, outputQueue).

(** The loop of the operator branch: while the stack is not empty and
    its top has a precedence greater than or equal to the token's, move
    the top to the output queue. *)
Fixpoint pop_higher (token : jsval) (operationStack outputQueue : list jsval)
    : list jsval * list jsval :=
  match operationStack with
  | [] => ([], outputQueue)
  | currentOperator :: rest =>
      if ge_property (operatorPrecendence currentOperator) (operatorPrecendence token)
      then pop_higher token rest (outputQueue ++ [currentOperator])
      else (operationStack, outputQueue)
  end.

(** The last loop: pop what is left on the stack to the output queue. *)
Fixpoint pop_rest (operationStack outputQueue : list jsval) : list jsval :=
  match operationStack with
  | [] => outputQueue
  | top :: rest => pop_rest rest (outputQueue ++ [top])
  end.

(** The main loop, [expression.shift()] taking the tokens one by one. *)
Fixpoint toPostfix_loop (fuel : nat) (expression operationStack outputQueue : list jsval)
    : option (list jsval) :=
  match expression with
  | [] => Some (pop_rest operationStack outputQueue)
  | token :: expression =>
      if negb (isNaN token) then
        toPostfix_loop fuel expression operationStack (outputQueue ++ [token])
      else if loose_eq_string token "(" then
        toPostfix_loop fuel expression (token :: operationStack) outputQueue
      else if loose_eq_string token ")" then
        let (currentOperator, operationStack) := pop operationStack in
        match pop_until_open fuel currentOperator operationStack outputQueue with
        | Some (operationStack, outputQueue) =>
            toPostfix_loop fuel expression operationStack outputQueue
        | None => None
        end
      else if isOperator token then
        let (operationStack, outputQueue) := pop_higher token operationStack outputQueue in
        toPostfix_loop fuel expression (token :: operationStack) outputQueue
      else toPostfix_loop fuel expression operationStack outputQueue
  end.

(** [toPostfix(expression)]: [Some] of the array it returns, [None] when
    one run of the [')'] loop takes more than [fuel] turns. *)
Definition toPostfix (fuel : nat) (expression : list jsval) : option (list jsval) :=
  toPostfix_loop fuel expression [] [].

(** *** [tokenizeExpression] *)

(** The character class [[+\-*^\/()]] of the regular expression. *)
Definition isSeparator (c : ascii) : bool :=
  (Ascii.eqb c "+" || Ascii.eqb c "-" || Ascii.eqb c "*" || Ascii.eqb c "^"
   || Ascii.eqb c "/" || Ascii.eqb c "(" || Ascii.eqb c ")")%bool.

(** [expression.replace(/([+\-*^\/()])/g, ' $1 ')] *)
Fixpoint space_out (expression : string) : string :=
  match expression with
  | EmptyString => EmptyString
  | String c r =>
      if isSeparator c then String " " (String c (String " " (space_out r)))
      else String c (space_out r)
  end.

Definition tokenizeExpression (expression : string) : list string :=
  let expression := space_out expression in
  let tokens :=
    filter (fun token => negb (String.eqb (trim token) "")) (split " " expression) in
  tokens.

(** The composition the script is written for: the array
    [tokenizeExpression] returns is the argument of [toPostfix], whose
    result is the argument of [evaluateExpression]. *)
Definition tokens_of (expression : string) : list jsval :=
  map JString (tokenizeExpression expression).

Definition calculate (pow_approx : number -> number -> number) (fuel : nat)
    (expression : string) : option jsval :=
  option_map (evaluateExpression pow_approx) (toPostfix fuel (tokens_of expression)).

(** *** [parseExpression] *)

(** The [for] loop of [parseExpression]: [true] when it returns the
    error message, at the first element whose lower case and upper case
    differ. *)
Fixpoint letter_found (expression : list string) : bool :=
  match expression with
  | [] => false
  | e :: rest =>
      if negb (units_eqb (toLowerCase e) (toUpperCase e)) then true
      else letter_found rest
  end.

(** [parseExpression(expression)]: the elements are strings, so [+]
    concatenates while [-], [*] and [/] convert to Numbers; when
    [expression[1]] is none of the four cases the function ends without
    a [return], that is with [undefined]. *)
Definition parseExpression (expression : string) : jsval :=
  let expression := split " " expression in
  if letter_found expression then JString "Error - expression contains letter"
  else
    let e0 := nth_error expression 0 in
    let e1 := nth_error expression 1 in
    let e2 := nth_error expression 2 in
    if element_is e1 "+" then plus_elements e0 e2
    else if element_is e1 "-" then JNumber (sub (element_number e0) (element_number e2))
    else if element_is e1 "*" then JNumber (mul (element_number e0) (element_number e2))
    else if element_is e1 "/" then JNumber (div (element_number e0) (element_number e2))
    else JUndefined.

(** ** Notions the statements use *)

(** [+0] or [-0] *)
Definition is_zero (x : number) : bool :=
  match x with
  | S754_zero _ => true
  | _ => false
  end.

(** The tokens ['('] and [')']. *)
Definition is_open (v : jsval) : bool := strict_eq_string v "(".
Definition is_close (v : jsval) : bool := strict_eq_string v ")".

(** How many ['('] a token sequence holds. *)
Definition count_open (l : list jsval) : nat := List.length (filter is_open l).

(** Reading the tokens left to right from nesting depth [depth]: the
    depth at the end, or [None] once a [')'] comes at depth 0, that is
    with no ['('] left to match it. *)
Fixpoint paren_depth (depth : nat) (expression : list jsval) : option nat :=
  match expression with
  | [] => Some depth
  | token :: rest =>
      if is_open token then paren_depth (S depth) rest
      else if is_close token then
        match depth with
        | O => None
        | S d => paren_depth d rest
        end
      else paren_depth depth rest
  end.

(** The [')'] branch of [toPostfix] as a whole: pop the top, then run
    the loop. *)
Definition close_group (fuel : nat) (operationStack outputQueue : list jsval)
    : option (list jsval * list jsval) :=
  let (currentOperator, operationStack) := pop operationStack in
  pop_until_open fuel currentOperator operationStack outputQueue.

(** Some character of [s] satisfies [p]. *)
Fixpoint contains (p : ascii -> bool) (s : string) : bool :=
  match s with
  | EmptyString => false
  | String c r => p c || contains p r
  end.

Definition is_space (c : ascii) : bool := Ascii.eqb c " ".

(** The character TAB (U+0009). *)
Definition tab : ascii := "009"%char.

(** A token that is one operator or parenthesis character. *)
Definition is_separator_token (t : string) : bool :=
  match t with
  | String c EmptyString => isSeparator c
  | _ => false
  end.

(** A token between separators: it has no operator, parenthesis or
    space character and is not made of white space only. *)
Definition is_word (t : string) : bool :=
  negb (contains isSeparator t) && negb (contains is_space t)
  && negb (String.eqb (trim t) "").

(** A sequence of tokens that can be written without spaces: no two
    words follow each other. [after_word] says that the token before
    the sequence is a word. *)
Fixpoint unspaceable (after_word : bool) (tokens : list string) : bool :=
  match tokens with
  | [] => true
  | t :: rest =>
      if is_separator_token t then unspaceable false rest
      else is_word t && negb after_word && unspaceable true rest
  end.

(** A code unit that has another case: the letters A to Z and a to z,
    the micro sign, and the letters of Latin-1 (U+00C0 to U+00FF but
    the multiplication and division signs). *)
Definition has_case (c : ascii) : bool :=
  let n := code c in
  ((65 <=? n) && (n <=? 90)) || ((97 <=? n) && (n <=? 122)) || (n =? 181)
  || ((192 <=? n) && negb (n =? 215) && negb (n =? 247)).

(** [s] without the characters that satisfy [p]. *)
Fixpoint strip (p : ascii -> bool) (s : string) : string :=
  match s with
  | EmptyString => EmptyString
  | String c r => if p c then strip p r else String c (strip p r)
  end.

(** The tokens the converter and the evaluator take for numbers, and
    the tokens each of them acts on. *)
Definition is_number (v : jsval) : bool := negb (isNaN v).

Definition converter_reads (v : jsval) : bool :=
  is_number v || is_open v || is_close v || isOperator v.

Definition evaluator_reads (v : jsval) : bool :=
  is_number v || isOperator v.

(** What an operator computes from its operands, as the [switch] of
    [evaluateExpression] has it. *)
Definition apply_operator (pow_approx : number -> number -> number)
    (op : string) (lhs rhs : number) : number :=
  if String.eqb op "+" then add lhs rhs
  else if String.eqb op "-" then sub lhs rhs
  else if String.eqb op "*" then mul lhs rhs
  else if String.eqb op "/" then div lhs rhs
  else if String.eqb op "^" then exponentiate pow_approx lhs rhs
  else NaN.

(** Expressions as trees: a literal, an operator with its two operands,
    or an expression in parentheses. *)
Inductive expr : Type :=
  | Lit (token : string)
  | Bin (op : string) (lhs rhs : expr)
  | Paren (e : expr).

(** The tokens of an expression in infix order and in postfix order. *)
Fixpoint infix (e : expr) : list string :=
  match e with
  | Lit token => [token]
  | Bin op lhs rhs => infix lhs ++ op :: infix rhs
  | Paren e => "(" :: infix e ++ [")"]
  end.

Fixpoint postfix (e : expr) : list string :=
  match e with
  | Lit token => [token]
  | Bin op lhs rhs => postfix lhs ++ postfix rhs ++ [op]
  | Paren e => postfix e
  end.

(** The value of an expression. *)
Fixpoint value (pow_approx : number -> number -> number) (e : expr) : number :=
  match e with
  | Lit token => StringToNumber token
  | Bin op lhs rhs =>
      apply_operator pow_approx op (value pow_approx lhs) (value pow_approx rhs)
  | Paren e => value pow_approx e
  end.

(** The precedence of an operator, 0 for what has none, and the level
    at which an expression binds: that of its operator, or 4, above
    every operator, for a literal and for parentheses. *)
Definition precedence (op : string) : Z :=
  match operatorPrecendence (JString op) with
  | Some p => p
  | None => 0
  end.

Definition level (e : expr) : Z :=
  match e with
  | Bin op _ _ => precedence op
  | _ => 4
  end.

(** The literals of [e] are numbers and its operators are operators. *)
Fixpoint tokens_ok (e : expr) : bool :=
  match e with
  | Lit token => is_number (JString token)
  | Bin op lhs rhs => isOperator (JString op) && tokens_ok lhs && tokens_ok rhs
  | Paren e => tokens_ok e
  end.

(** The tree is the reading of its infix tokens in which a higher
    precedence binds tighter and equal precedence groups to the left:
    a left operand binds at least as tightly as its operator, a right
    operand strictly tighter. *)
Fixpoint grouped (e : expr) : bool :=
  match e with
  | Lit _ => true
  | Bin op lhs rhs =>
      grouped lhs && grouped rhs
      && (precedence op <=? level lhs) && (precedence op <? level rhs)
  | Paren e => grouped e
  end.

(** Every literal of [e] is a word of the tokenizer. *)
Fixpoint literals_are_words (e : expr) : bool :=
  match e with
  | Lit token => is_word token
  | Bin _ lhs rhs => literals_are_words lhs && literals_are_words rhs
  | Paren e => literals_are_words e
  end.

(** The last token of an expression is a word, or else a [')']. *)
Fixpoint ends_with_word (e : expr) : bool :=
  match e with
  | Lit _ => true
  | Bin _ _ rhs => ends_with_word rhs
  | Paren _ => false
  end.

(** While the converter reads [e]: the tokens it has sent to the output
    queue when the last token of [e] is read, and the operators of [e]
    still on the stack then, the top first. *)
Fixpoint emitted (e : expr) : list string :=
  match e with
  | Lit token => [token]
  | Bin op lhs rhs => postfix lhs ++ emitted rhs
  | Paren e => postfix e
  end.

Fixpoint pending (e : expr) : list string :=
  match e with
  | Bin op lhs rhs => pending rhs ++ [op]
  | _ => []
  end.

(** The top of the stack stays where it is when an operator of
    precedence [p] comes. *)
Definition stays (operationStack : list jsval) (p : Z) : Prop :=
  match operationStack with
  | [] => True
  | top :: _ => ge_property (operatorPrecendence top) (Some p) = false
  end.

(** ** The examples in the comments of the script *)

Example isOperator_examples :
  isOperator (JString "+") = true /\ isOperator (JString "5") = false.
Proof. split; reflexivity. Qed.

Example tokenizeExpression_examples :
  tokenizeExpression "3 + 4" = ["3"; "+"; "4"]
  /\ tokenizeExpression "5 * (3 + 2)" = ["5"; "*"; "("; "3"; "+"; "2"; ")"]
  /\ tokenizeExpression "1+2-3" = ["1"; "+"; "2"; "-"; "3"].
Proof. repeat split; reflexivity. Qed.

Example toPostfix_examples :
  toPostfix 1 (map JString ["3"; "+"; "4"]) = Some (map JString ["3"; "4"; "+"])
  /\ toPostfix 1 (map JString ["3"; "+"; "4"; "*"; "2"])
     = Some (map JString ["3"; "4"; "2"; "*"; "+"])
  /\ toPostfix 1 (map JString ["("; "3"; "+"; "4"; ")"; "*"; "2"])
     = Some (map JString ["3"; "4"; "+"; "2"; "*"])
  /\ toPostfix 1 (map JString ["5"; "*"; "("; "3"; "+"; "2"; ")"])
     = Some (map JString ["5"; "3"; "2"; "+"; "*"])
  /\ toPostfix 1 (map JString ["1"; "+"; "2"; "-"; "3"])
     = Some (map JString ["1"; "2"; "+"; "3"; "-"]).
Proof. repeat split; reflexivity. Qed.

Example evaluateExpression_examples (pow_approx : number -> number -> number) :
  evaluateExpression pow_approx (map JString ["3"; "4"; "+"]) = JNumber (of_Z 7)
  /\ evaluateExpression pow_approx (map JString ["3"; "4"; "2"; "*"; "+"])
     = JNumber (of_Z 11)
  /\ evaluateExpression pow_approx (map JString ["5"; "3"; "2"; "+"; "*"])
     = JNumber (of_Z 25)
  /\ evaluateExpression pow_approx (map JString ["2"; "3"; "^"; "1"; "+"])
     = JNumber (of_Z 9).
Proof. repeat split; reflexivity. Qed.

(** Numbers as binary64 values: 64 is [2^52 * 2^-46], and a decimal
    literal is rounded to the nearest one. *)
Example number_examples :
  of_Z 64 = S754_finite false 4503599627370496 (-46)
  /\ StringToNumber "0.1" = S754_finite false 7205759403792794 (-56)
  /\ StringToNumber " 12 " = of_Z 12
  /\ StringToNumber "" = pos_zero
  /\ StringToNumber "0x1F" = of_Z 31
  /\ StringToNumber "1e3" = of_Z 1000
  /\ StringToNumber "-Infinity" = neg_inf
  /\ StringToNumber "(" = NaN
  /\ StringToNumber "1 2" = NaN.
Proof. repeat split; reflexivity. Qed.

(** ** The evaluator *)

Section EvaluateFacts.

Variable pow_approx : number -> number -> number.

(** Arithmetic with NaN on the left is NaN, and so are powers of NaN,
    except that the power with exponent [+0] or [-0] is 1. *)
Lemma add_NaN_l (x : number) : add NaN x = NaN.
Proof. destruct x; reflexivity. Qed.

Lemma sub_NaN_l (x : number) : sub NaN x = NaN.
Proof. destruct x; reflexivity. Qed.

Lemma mul_NaN_l (x : number) : mul NaN x = NaN.
Proof. destruct x; reflexivity. Qed.

Lemma div_NaN_l (x : number) : div NaN x = NaN.
Proof. destruct x; reflexivity. Qed.

Lemma exponentiate_NaN_l (x : number) :
  exponentiate pow_approx NaN x = if is_zero x then one else NaN.
Proof. destruct x; reflexivity. Qed.

(** The loop runs token by token, left to right. *)
Lemma eval_loop_app (e1 e2 : list jsval) :
  eval_loop pow_approx (e1 ++ e2)
  = fold_left (eval_token pow_approx) e2 (eval_loop pow_approx e1).
Proof. unfold eval_loop. apply fold_left_app. Qed.

(** An operator that finds two operands replaces them by
    [lhs OP rhs], [rhs] being the operand pushed last. *)
Lemma eval_token_binary (rhs lhs : number) (evalStack : list number) :
  eval_token pow_approx (rhs :: lhs :: evalStack) (JString "+") = add lhs rhs :: evalStack
  /\ eval_token pow_approx (rhs :: lhs :: evalStack) (JString "-") = sub lhs rhs :: evalStack
  /\ eval_token pow_approx (rhs :: lhs :: evalStack) (JString "*") = mul lhs rhs :: evalStack
  /\ eval_token pow_approx (rhs :: lhs :: evalStack) (JString "/") = div lhs rhs :: evalStack
  /\ eval_token pow_approx (rhs :: lhs :: evalStack) (JString "^")
     = exponentiate pow_approx lhs rhs :: evalStack.
Proof. repeat split; reflexivity. Qed.

Lemma index0_snoc (above : list number) (x : number) :
  index0 (above ++ [x]) = JNumber x.
Proof.
  unfold index0. rewrite map_app. simpl. apply last_last.
Qed.

End EvaluateFacts.

(** C3, as the code has it: [evaluateExpression(["+", "3"])] reports
    nothing and returns the Number NaN, the same value the well-formed
    postfix sequence [0 0 /] evaluates to. Both sides are functions of
    the implementation's part of [**], which plays no role here. *)
Lemma underflow_returns_NaN :
  (fun pow_approx => evaluateExpression pow_approx [JString "+"; JString "3"])
  = (fun _ => JNumber NaN)
  /\ (fun pow_approx => evaluateExpression pow_approx [JString "0"; JString "0"; JString "/"])
     = (fun _ => JNumber NaN).
Proof. split; reflexivity. Qed.

(** C3, amended: an operator that finds fewer than two operands is
    applied all the same. A missing operand reads as [undefined], NaN in
    arithmetic, and the result is pushed as the only element of the
    stack: NaN, or 1 for [^] with the exponent [+0] or [-0]. *)
Theorem operator_underflow_pushes_result :
  forall (pow_approx : number -> number -> number) (evalStack : list number) (op : string),
    In op operators ->
    (List.length evalStack < 2)%nat ->
    eval_token pow_approx evalStack (JString op)
    = [if (String.eqb op "^" && existsb is_zero evalStack)%bool then one else NaN].
Proof.
  intros pow_approx evalStack op Hop Hlen.
  destruct evalStack as [|x [|y rest]]; simpl in Hlen; try lia;
    simpl in Hop; decompose [or] Hop; subst; try contradiction.
  1-5: reflexivity.
  - change (add NaN x :: [] = [NaN]). now rewrite add_NaN_l.
  - change (sub NaN x :: [] = [NaN]). now rewrite sub_NaN_l.
  - change (mul NaN x :: [] = [NaN]). now rewrite mul_NaN_l.
  - change (div NaN x :: [] = [NaN]). now rewrite div_NaN_l.
  - change (exponentiate pow_approx NaN x :: []
            = [if (is_zero x || false)%bool then one else NaN]).
    rewrite exponentiate_NaN_l, orb_false_r. reflexivity.
Qed.

(** The first token of [["+", "3"]], on the empty stack. *)
Lemma operator_underflow_pushes_result_witness :
  In "+" operators
  /\ (List.length (@nil number) < 2)%nat
  /\ eval_token (fun _ _ => NaN) [] (JString "+") = [NaN].
Proof.
  split; [simpl; auto | split; [simpl; lia |]].
  apply (operator_underflow_pushes_result (fun _ _ => NaN) [] "+");
    [simpl; auto | simpl; lia].
Defined.

(** C4, as the code has it: [1 2] leaves two values on the stack and
    [evaluateExpression] returns the first of them, the Number 1,
    whatever the implementation's part of [**]. *)
Lemma leftover_operands_return_number :
  (fun pow_approx => eval_loop pow_approx [JString "1"; JString "2"])
  = (fun _ => [of_Z 2; of_Z 1])
  /\ (fun pow_approx => evaluateExpression pow_approx [JString "1"; JString "2"])
     = (fun _ => JNumber (of_Z 1)).
Proof. split; reflexivity. Qed.

(** C4, amended: [evaluateExpression] returns [evalStack[0]]. Whenever
    the loop ends with at least one value on the stack, the value pushed
    first among those left is returned, whatever lies above it; with no
    token the result is [undefined]. *)
Theorem evaluate_returns_first_pushed :
  forall (pow_approx : number -> number -> number) (expression : list jsval)
         (above : list number) (x : number),
    eval_loop pow_approx expression = above ++ [x] ->
    evaluateExpression pow_approx expression = JNumber x
    /\ evaluateExpression pow_approx [] = JUndefined.
Proof.
  intros pow_approx expression above x Hstack. split; [| reflexivity].
  unfold evaluateExpression. rewrite Hstack. apply index0_snoc.
Qed.

(** [1 2] again: the stack ends as [[1, 2]] and 1 is returned. *)
Lemma evaluate_returns_first_pushed_witness :
  eval_loop (fun _ _ => NaN) [JString "1"; JString "2"] = [of_Z 2] ++ [of_Z 1]
  /\ evaluateExpression (fun _ _ => NaN) [JString "1"; JString "2"] = JNumber (of_Z 1)
  /\ evaluateExpression (fun _ _ => NaN) [] = JUndefined.
Proof.
  split; [reflexivity |].
  apply (evaluate_returns_first_pushed (fun _ _ => NaN)
           [JString "1"; JString "2"] [of_Z 2] (of_Z 1)).
  reflexivity.
Defined.

(** Whenever no value is left, the result is [undefined]. *)
Lemma evaluate_empty_stack (pow_approx : number -> number -> number)
    (expression : list jsval) :
  eval_loop pow_approx expression = [] ->
  evaluateExpression pow_approx expression = JUndefined.
Proof. intros H. unfold evaluateExpression. now rewrite H. Qed.


(** ** The converter *)

(** Only the string ["("] is loosely equal to ['('], and likewise for
    [')']: a Number would have to equal NaN. *)
Lemma loose_eq_open (v : jsval) : loose_eq_string v "(" = is_open v.
Proof. destruct v as [|n|s]; try reflexivity. destruct n; reflexivity. Qed.

Lemma loose_eq_close (v : jsval) : loose_eq_string v ")" = is_close v.
Proof. destruct v as [|n|s]; try reflexivity. destruct n; reflexivity. Qed.

Lemma is_open_eq (v : jsval) : is_open v = true -> v = JString "(".
Proof.
  destruct v as [|n|s]; simpl; try discriminate.
  intros H. apply String.eqb_eq in H. now subst.
Qed.

Lemma is_close_eq (v : jsval) : is_close v = true -> v = JString ")".
Proof.
  destruct v as [|n|s]; simpl; try discriminate.
  intros H. apply String.eqb_eq in H. now subst.
Qed.

Lemma open_isNaN (v : jsval) : is_open v = true -> isNaN v = true.
Proof. intros H. apply is_open_eq in H. now subst. Qed.

Lemma close_isNaN (v : jsval) : is_close v = true -> isNaN v = true.
Proof. intros H. apply is_close_eq in H. now subst. Qed.

(** ['('] has no precedence: the operator loop never moves it. *)
Lemma ge_property_open (v token : jsval) :
  ge_property (operatorPrecendence v) (operatorPrecendence token) = true ->
  is_open v = false.
Proof.
  intros H. destruct (is_open v) eqn:E; [| reflexivity].
  apply is_open_eq in E. subst. discriminate H.
Qed.

Lemma count_open_app (a b : list jsval) :
  count_open (a ++ b) = (count_open a + count_open b)%nat.
Proof. unfold count_open. now rewrite filter_app, length_app. Qed.

Lemma count_open_cons (v : jsval) (l : list jsval) :
  count_open (v :: l) = ((if is_open v then 1 else 0) + count_open l)%nat.
Proof. unfold count_open. simpl. now destruct (is_open v). Qed.

Lemma count_open_snoc (l : list jsval) (v : jsval) :
  is_open v = false -> count_open (l ++ [v]) = count_open l.
Proof.
  intros H. unfold count_open. rewrite filter_app, length_app. simpl.
  rewrite H. simpl. lia.
Qed.

Lemma count_open_none (l : list jsval) :
  Forall (fun v => is_open v = false) l -> count_open l = 0%nat.
Proof.
  induction 1 as [|v l Hv _ IH]; [reflexivity |].
  rewrite count_open_cons, Hv, IH. reflexivity.
Qed.

Lemma count_open_In (l : list jsval) :
  count_open l <> 0%nat -> In (JString "(") l.
Proof.
  induction l as [|v l IH]; [intros H; now elim H |].
  rewrite count_open_cons. destruct (is_open v) eqn:E.
  - intros _. left. now apply is_open_eq.
  - intros H. right. apply IH. simpl in H. exact H.
Qed.

(** A stack that holds a ['('] splits at the one nearest to the top. *)
Lemma split_first_open (l : list jsval) (k : nat) :
  count_open l = S k ->
  exists ops below,
    l = ops ++ JString "(" :: below
    /\ Forall (fun v => is_open v = false) ops
    /\ count_open below = k.
Proof.
  induction l as [|v l IH]; [discriminate |].
  rewrite count_open_cons. destruct (is_open v) eqn:E.
  - intros H. exists [], l. apply is_open_eq in E. subst v.
    split; [reflexivity | split; [constructor | simpl in H; lia]].
  - intros H. destruct (IH H) as (ops & below & -> & Hops & Hk).
    exists (v :: ops), below.
    split; [reflexivity | split; [now constructor | exact Hk]].
Qed.

(** The operator loop keeps every ['('] where it is and never makes the
    stack longer. *)
Lemma pop_higher_spec (token : jsval) (operationStack outputQueue : list jsval) :
  forall st out,
    pop_higher token operationStack outputQueue = (st, out) ->
    count_open st = count_open operationStack
    /\ count_open out = count_open outputQueue
    /\ (List.length st <= List.length operationStack)%nat.
Proof.
  revert outputQueue.
  induction operationStack as [|cur rest IH]; intros outputQueue st out; simpl.
  - intros [= <- <-]. auto.
  - destruct (ge_property _ _) eqn:G.
    + intros H. apply IH in H. destruct H as (H1 & H2 & H3).
      apply ge_property_open in G.
      rewrite count_open_cons, G, H1, H2, count_open_snoc by exact G.
      repeat split; auto.
    + intros [= <- <-]. auto.
Qed.

Lemma pop_rest_app (operationStack outputQueue : list jsval) :
  pop_rest operationStack outputQueue = outputQueue ++ operationStack.
Proof.
  revert outputQueue.
  induction operationStack as [|top rest IH]; intros outputQueue; simpl.
  - now rewrite app_nil_r.
  - rewrite IH, <- app_assoc. reflexivity.
Qed.

(** The [')'] loop, turn by turn. *)
Lemma pop_until_open_found (fuel : nat) (cur : jsval) (st out : list jsval) :
  is_open cur = true -> pop_until_open fuel cur st out = Some (st, out).
Proof.
  intros H. destruct fuel; simpl; rewrite loose_eq_open, H; reflexivity.
Qed.

Lemma pop_until_open_no_fuel (cur : jsval) (st out : list jsval) :
  is_open cur = false -> pop_until_open 0 cur st out = None.
Proof. intros H. simpl. rewrite loose_eq_open, H. reflexivity. Qed.

Lemma pop_until_open_turn (fuel : nat) (cur : jsval) (st out : list jsval) :
  is_open cur = false ->
  pop_until_open (S fuel) cur st out = close_group fuel st (out ++ [cur]).
Proof. intros H. simpl. rewrite loose_eq_open, H. reflexivity. Qed.

(** On an empty stack [pop] answers [undefined], which is not ['(']:
    the loop goes on, whatever the number of turns allowed. *)
Lemma close_group_empty (fuel : nat) (out : list jsval) :
  close_group fuel [] out = None.
Proof.
  revert out. induction fuel as [|fuel IH]; intros out.
  - reflexivity.
  - unfold close_group. simpl pop. cbv iota beta.
    rewrite pop_until_open_turn by reflexivity. apply IH.
Qed.

(** With a ['('] on the stack the loop moves what lies above it to the
    output queue and drops it, in as many turns as operators moved. *)
Lemma close_group_found (ops : list jsval) :
  forall (fuel : nat) (below out : list jsval),
    Forall (fun v => is_open v = false) ops ->
    (List.length ops <= fuel)%nat ->
    close_group fuel (ops ++ JString "(" :: below) out = Some (below, out ++ ops).
Proof.
  induction ops as [|o ops IH]; intros fuel below out Hops Hfuel.
  - unfold close_group. simpl. rewrite app_nil_r.
    now apply pop_until_open_found.
  - inversion Hops as [|? ? Ho Hops']; subst.
    destruct fuel as [|fuel]; [simpl in Hfuel; lia |].
    change (close_group (S fuel) ((o :: ops) ++ JString "(" :: below) out)
      with (pop_until_open (S fuel) o (ops ++ JString "(" :: below) out).
    rewrite pop_until_open_turn by exact Ho.
    rewrite IH by (auto; simpl in Hfuel; lia).
    now rewrite <- app_assoc.
Qed.

(** The loop ends in no other way. *)
Lemma close_group_inv (operationStack : list jsval) :
  forall (fuel : nat) (out below out' : list jsval),
    close_group fuel operationStack out = Some (below, out') ->
    exists ops,
      operationStack = ops ++ JString "(" :: below
      /\ out' = out ++ ops
      /\ Forall (fun v => is_open v = false) ops.
Proof.
  induction operationStack as [|c st IH]; intros fuel out below out' H.
  - now rewrite close_group_empty in H.
  - change (pop_until_open fuel c st out = Some (below, out')) in H.
    destruct (is_open c) eqn:E.
    + rewrite pop_until_open_found in H by exact E.
      injection H as <- <-. apply is_open_eq in E. subst c.
      exists []. split; [reflexivity | split; [now rewrite app_nil_r | constructor]].
    + destruct fuel as [|fuel].
      * now rewrite pop_until_open_no_fuel in H.
      * rewrite pop_until_open_turn in H by exact E.
        apply IH in H. destruct H as (ops & -> & -> & Hops).
        exists (c :: ops).
        split; [reflexivity | split; [now rewrite <- app_assoc | now constructor]].
Qed.

(** The main loop, branch by branch. *)
Lemma loop_number (fuel : nat) (token : jsval) (e st out : list jsval) :
  isNaN token = false ->
  toPostfix_loop fuel (token :: e) st out = toPostfix_loop fuel e st (out ++ [token]).
Proof. intros H. simpl. now rewrite H. Qed.

Lemma loop_open (fuel : nat) (token : jsval) (e st out : list jsval) :
  is_open token = true ->
  toPostfix_loop fuel (token :: e) st out = toPostfix_loop fuel e (token :: st) out.
Proof.
  intros H. simpl. now rewrite (open_isNaN _ H), loose_eq_open, H.
Qed.

Lemma loop_close (fuel : nat) (token : jsval) (e st out : list jsval) :
  is_close token = true ->
  toPostfix_loop fuel (token :: e) st out
  = match close_group fuel st out with
    | Some (st', out') => toPostfix_loop fuel e st' out'
    | None => None
    end.
Proof.
  intros H. apply is_close_eq in H. subst token.
  destruct st; reflexivity.
Qed.

Lemma loop_operator (fuel : nat) (token : jsval) (e st out : list jsval) :
  isNaN token = true -> is_open token = false -> is_close token = false ->
  isOperator token = true ->
  toPostfix_loop fuel (token :: e) st out
  = let (st', out') := pop_higher token st out in
    toPostfix_loop fuel e (token :: st') out'.
Proof.
  intros Hn Ho Hc Hp. simpl.
  now rewrite Hn, loose_eq_open, Ho, loose_eq_close, Hc, Hp.
Qed.

Lemma loop_other (fuel : nat) (token : jsval) (e st out : list jsval) :
  isNaN token = true -> is_open token = false -> is_close token = false ->
  isOperator token = false ->
  toPostfix_loop fuel (token :: e) st out = toPostfix_loop fuel e st out.
Proof.
  intros Hn Ho Hc Hp. simpl.
  now rewrite Hn, loose_eq_open, Ho, loose_eq_close, Hc, Hp.
Qed.

(** When every [')'] finds a ['('] on the stack, the conversion ends,
    and every ['('] that was not matched is in its result. *)
Lemma toPostfix_loop_returns (e : list jsval) :
  forall (st out : list jsval) (fuel d : nat),
    paren_depth (count_open st) e = Some d ->
    (List.length st + List.length e <= fuel)%nat ->
    exists res,
      toPostfix_loop fuel e st out = Some res
      /\ count_open res = (count_open out + d)%nat.
Proof.
  induction e as [|token e IH]; intros st out fuel d Hd Hfuel.
  - injection Hd as <-. exists (pop_rest st out).
    split; [reflexivity |]. now rewrite pop_rest_app, count_open_app.
  - cbn [paren_depth] in Hd. cbn [List.length] in Hfuel.
    destruct (is_open token) eqn:Eo; [| destruct (is_close token) eqn:Ec].
    + rewrite loop_open by exact Eo.
      apply IH; [now rewrite count_open_cons, Eo | cbn [List.length]; lia].
    + rewrite loop_close by exact Ec.
      destruct (count_open st) as [|k] eqn:Ek; [discriminate |].
      destruct (split_first_open _ _ Ek) as (ops & below & -> & Hops & Hk).
      rewrite length_app in Hfuel. cbn [List.length] in Hfuel.
      rewrite close_group_found by (auto; lia).
      destruct (IH below (out ++ ops) fuel d) as (res & Hres & Hc);
        [now rewrite Hk | lia |].
      exists res. split; [exact Hres |].
      rewrite Hc, count_open_app, (count_open_none ops) by exact Hops. lia.
    + destruct (isNaN token) eqn:En; [destruct (isOperator token) eqn:Ep |].
      * rewrite loop_operator by assumption.
        destruct (pop_higher token st out) as [st1 out1] eqn:Eh.
        apply pop_higher_spec in Eh. destruct Eh as (H1 & H2 & H3).
        destruct (IH (token :: st1) out1 fuel d) as (res & Hres & Hc);
          [now rewrite count_open_cons, Eo, H1 | cbn [List.length]; lia |].
        exists res. split; [exact Hres | now rewrite Hc, H2].
      * rewrite loop_other by assumption. apply IH; [exact Hd | lia].
      * rewrite loop_number by exact En.
        destruct (IH st (out ++ [token]) fuel d) as (res & Hres & Hc);
          [exact Hd | lia |].
        exists res. split; [exact Hres | now rewrite Hc, count_open_snoc].
Qed.

(** When a [')'] finds no ['('] on the stack, the conversion never
    ends. *)
Lemma toPostfix_loop_diverges (e : list jsval) :
  forall (st out : list jsval) (fuel : nat),
    paren_depth (count_open st) e = None ->
    toPostfix_loop fuel e st out = None.
Proof.
  induction e as [|token e IH]; intros st out fuel Hd; [discriminate |].
  cbn [paren_depth] in Hd.
  destruct (is_open token) eqn:Eo; [| destruct (is_close token) eqn:Ec].
  - rewrite loop_open by exact Eo.
    apply IH. now rewrite count_open_cons, Eo.
  - rewrite loop_close by exact Ec.
    destruct (close_group fuel st out) as [[below out'] |] eqn:Eg; [| reflexivity].
    apply close_group_inv in Eg. destruct Eg as (ops & -> & -> & Hops).
    rewrite count_open_app, (count_open_none ops), count_open_cons in Hd by exact Hops.
    simpl in Hd. now apply IH.
  - destruct (isNaN token) eqn:En; [destruct (isOperator token) eqn:Ep |].
    + rewrite loop_operator by assumption.
      destruct (pop_higher token st out) as [st1 out1] eqn:Eh.
      apply pop_higher_spec in Eh. destruct Eh as (H1 & _ & _).
      apply IH. now rewrite count_open_cons, Eo, H1.
    + rewrite loop_other by assumption. now apply IH.
    + rewrite loop_number by exact En. now apply IH.
Qed.

(** X7: [toPostfix] returns exactly on the inputs in which every [')'] has
    a ['('] before it to match. *)
Lemma toPostfix_returns_iff (expression : list jsval) :
  (exists fuel out, toPostfix fuel expression = Some out)
  <-> paren_depth 0 expression <> None.
Proof.
  split.
  - intros (fuel & out & H) Hd.
    unfold toPostfix in H.
    now rewrite (toPostfix_loop_diverges expression [] [] fuel Hd) in H.
  - intros Hd. destruct (paren_depth 0 expression) as [d |] eqn:E; [| now elim Hd].
    destruct (toPostfix_loop_returns expression [] [] (List.length expression) d E)
      as (res & Hres & _); [simpl; lia |].
    now exists (List.length expression), res.
Qed.

(** C2, as the code has it: for ["(3 + 4"] the converter returns a
    token sequence, with the ['('] as its last token. No [')'] is met,
    so the result does not depend on [fuel]. *)
Lemma stray_open_is_returned :
  toPostfix 0 (tokens_of "(3 + 4")
  = Some [JString "3"; JString "4"; JString "+"; JString "("].
Proof. reflexivity. Qed.

(** C2, amended: on an input with no unmatched [')'] the converter
    reports nothing. It returns a token sequence that holds as many
    ['('] as the input leaves unmatched, so a stray ['('] is always
    emitted. *)
Theorem toPostfix_emits_unmatched_open :
  forall (expression : list jsval) (d fuel : nat),
    paren_depth 0 expression = Some d ->
    (List.length expression <= fuel)%nat ->
    exists out,
      toPostfix fuel expression = Some out
      /\ count_open out = d
      /\ (d <> 0%nat -> In (JString "(") out).
Proof.
  intros expression d fuel Hd Hfuel.
  destruct (toPostfix_loop_returns expression [] [] fuel d Hd) as (res & Hres & Hc);
    [simpl; lia |].
  exists res. split; [exact Hres |]. split; [exact Hc |].
  intros Hpos. apply count_open_In. simpl in Hc. now rewrite Hc.
Qed.

(** ["(3 + 4"]: one ['('] is left unmatched, and it is in the result. *)
Lemma toPostfix_emits_unmatched_open_witness :
  paren_depth 0 (tokens_of "(3 + 4") = Some 1%nat
  /\ (List.length (tokens_of "(3 + 4") <= 4)%nat
  /\ exists out,
       toPostfix 4 (tokens_of "(3 + 4") = Some out
       /\ count_open out = 1%nat
       /\ (1%nat <> 0%nat -> In (JString "(") out).
Proof.
  split; [reflexivity | split; [vm_compute; lia |]].
  apply (toPostfix_emits_unmatched_open (tokens_of "(3 + 4") 1 4);
    [reflexivity | vm_compute; lia].
Defined.

(** C5, at the input [3 + 4 )]: the [')'] loop of [toPostfix] is still
    running after any number of turns, so no result is returned. *)
Theorem unmatched_close_never_returns :
  forall fuel : nat, toPostfix fuel (tokens_of "3 + 4)") = None.
Proof.
  intros fuel. unfold toPostfix. apply toPostfix_loop_diverges. reflexivity.
Qed.

(** ** The pipeline *)

(** Two operators in a row: the first one is applied first unless the
    second binds tighter, so operators of equal precedence, [^]
    included, group to the left. *)
Lemma two_operators_grouping (fuel : nat) (a b c : jsval) (o1 o2 : string) :
  isNaN a = false -> isNaN b = false -> isNaN c = false ->
  In o1 operators -> In o2 operators ->
  toPostfix fuel [a; JString o1; b; JString o2; c]
  = Some (if ge_property (operatorPrecendence (JString o1))
                         (operatorPrecendence (JString o2))
          then [a; b; JString o1; c; JString o2]
          else [a; b; c; JString o2; JString o1]).
Proof.
  intros Ha Hb Hc H1 H2. unfold toPostfix.
  rewrite loop_number by exact Ha.
  simpl in H1, H2. decompose [or] H1; decompose [or] H2; subst; try contradiction;
    (rewrite loop_operator by reflexivity; cbn [pop_higher];
     rewrite loop_number by exact Hb;
     rewrite loop_operator by reflexivity;
     match goal with
     | |- context [pop_higher ?t ?s ?o] =>
         let r := eval cbv in (pop_higher t s o) in
         change (pop_higher t s o) with r
     end; cbv iota beta;
     rewrite loop_number by exact Hc; reflexivity).
Qed.

(** C1: exponentiation groups to the left. The tokens of ["2 ^ 3 ^ 2"]
    are reordered to [2 3 ^ 2 ^], which evaluates to 64, that is
    [(2 ^ 3) ^ 2], and 64 is not the Number 512 of [2 ^ (3 ^ 2)]. *)
Theorem exponent_chain_groups_left :
  forall (pow_approx : number -> number -> number) (fuel : nat),
    toPostfix fuel (tokens_of "2 ^ 3 ^ 2")
    = Some [JString "2"; JString "3"; JString "^"; JString "2"; JString "^"]
    /\ calculate pow_approx fuel "2 ^ 3 ^ 2" = Some (JNumber (of_Z 64))
    /\ of_Z 64 <> of_Z 512.
Proof.
  intros pow_approx fuel. repeat split; try reflexivity.
  vm_compute. discriminate.
Qed.


(** C8: parentheses override precedence: ["(3 + 4) * 2"] evaluates to
    14. The [')'] loop takes one turn here, so any positive [fuel] is
    enough. *)
Theorem parentheses_override_precedence :
  forall (pow_approx : number -> number -> number) (fuel : nat),
    toPostfix (S fuel) (tokens_of "(3 + 4) * 2")
    = Some [JString "3"; JString "4"; JString "+"; JString "2"; JString "*"]
    /\ calculate pow_approx (S fuel) "(3 + 4) * 2" = Some (JNumber (of_Z 14)).
Proof.
  intros pow_approx fuel. destruct fuel; split; reflexivity.
Qed.

(** ** The tokenizer *)

Lemma append_empty_r (s : string) : (s ++ "")%string = s.
Proof. induction s as [|c s IH]; simpl; [reflexivity | now rewrite IH]. Qed.

(** The separators are seven characters, none of them white space. *)
Lemma separator_cases (c : ascii) :
  isSeparator c = true ->
  c = "+"%char \/ c = "-"%char \/ c = "*"%char \/ c = "^"%char
  \/ c = "/"%char \/ c = "("%char \/ c = ")"%char.
Proof.
  unfold isSeparator. rewrite !orb_true_iff, !Ascii.eqb_eq. tauto.
Qed.

Lemma separator_not_space (c : ascii) :
  isSeparator c = true -> is_space c = false /\ isWhiteSpace c = false.
Proof.
  intros H. apply separator_cases in H.
  decompose [or] H; subst; split; reflexivity.
Qed.

Lemma space_out_app (a b : string) :
  space_out (a ++ b) = (space_out a ++ space_out b)%string.
Proof.
  induction a as [|c a IH]; simpl; [reflexivity |].
  destruct (isSeparator c); simpl; now rewrite IH.
Qed.

Lemma space_out_id (s : string) :
  contains isSeparator s = false -> space_out s = s.
Proof.
  induction s as [|c s IH]; simpl; [reflexivity |].
  intros H. apply orb_false_iff in H. destruct H as [Hc Hs].
  now rewrite Hc, IH.
Qed.

Lemma split_not_nil (sep : ascii) (s : string) : split sep s <> [].
Proof.
  destruct s as [|c s]; simpl; [discriminate |].
  destruct (Ascii.eqb c sep); [discriminate |].
  destruct (split sep s); discriminate.
Qed.

(** Splitting distributes over an occurrence of the separator. *)
Lemma split_app_sep (sep : ascii) (a b : string) :
  split sep (a ++ String sep b) = split sep a ++ split sep b.
Proof.
  induction a as [|c a IH]; simpl.
  - now rewrite Ascii.eqb_refl.
  - destruct (Ascii.eqb c sep); [now rewrite IH |].
    rewrite IH. destruct (split sep a) as [|f fs] eqn:E; [| reflexivity].
    now elim (split_not_nil sep a).
Qed.

Lemma split_no_sep (sep : ascii) (s : string) :
  contains (fun c => Ascii.eqb c sep) s = false -> split sep s = [s].
Proof.
  induction s as [|c s IH]; simpl; [reflexivity |].
  intros H. apply orb_false_iff in H. destruct H as [Hc Hs].
  now rewrite Hc, IH.
Qed.

(** No fragment of a split holds the separator. *)
Lemma split_fragments (sep : ascii) (s t : string) :
  In t (split sep s) -> contains (fun c => Ascii.eqb c sep) t = false.
Proof.
  revert t. induction s as [|c s IH]; intros t; simpl.
  - intros [<- | []]. reflexivity.
  - destruct (Ascii.eqb c sep) eqn:E.
    + intros [<- | H]; [reflexivity | now apply IH].
    + destruct (split sep s) as [|f fs] eqn:Es; simpl.
      * intros [<- | []]. simpl. now rewrite E.
      * intros [<- | H]; [| apply IH; now right].
        simpl. rewrite E. apply IH. now left.
Qed.

(** The tokens of a text are those of its parts around a space. *)
Lemma tokenize_app_space (a b : string) :
  tokenizeExpression (a ++ String " " b)
  = tokenizeExpression a ++ tokenizeExpression b.
Proof.
  unfold tokenizeExpression. rewrite space_out_app. simpl space_out.
  now rewrite split_app_sep, filter_app.
Qed.

(** An operator or parenthesis is a token of its own, whatever is
    around it. *)
Lemma tokenize_separator (c : ascii) (a b : string) :
  isSeparator c = true ->
  tokenizeExpression (a ++ String c b)
  = tokenizeExpression a ++ String c EmptyString :: tokenizeExpression b.
Proof.
  intros Hc. destruct (separator_not_space c Hc) as [Hsp Hws].
  unfold tokenizeExpression. rewrite space_out_app. simpl space_out. rewrite Hc.
  rewrite split_app_sep, filter_app. f_equal.
  unfold is_space in Hsp. simpl split. rewrite Hsp.
  cbn [filter]. unfold trim. cbn [trimStart]. rewrite Hws.
  cbn [trimEnd]. rewrite Hws. reflexivity.
Qed.

Lemma tokenize_word (w : string) :
  is_word w = true -> tokenizeExpression w = [w].
Proof.
  unfold is_word. rewrite !andb_true_iff, !negb_true_iff.
  intros [[Hsep Hsp] Hblank].
  unfold tokenizeExpression. rewrite space_out_id by exact Hsep.
  rewrite split_no_sep by exact Hsp. simpl. now rewrite Hblank.
Qed.

Lemma tokenize_separator_token (t : string) :
  is_separator_token t = true -> tokenizeExpression t = [t].
Proof.
  destruct t as [|c [|c' t]]; simpl; try discriminate.
  intros Hc. apply (tokenize_separator c EmptyString EmptyString Hc).
Qed.

Lemma concat_unspaced_cons (t : string) (ts : list string) :
  String.concat "" (t :: ts) = (t ++ String.concat "" ts)%string.
Proof.
  destruct ts as [|u ts]; simpl; [now rewrite append_empty_r | reflexivity].
Qed.

Lemma unspaceable_tokens (ts : list string) :
  forall after_word : bool,
    unspaceable after_word ts = true ->
    Forall (fun t => is_separator_token t = true \/ is_word t = true) ts.
Proof.
  induction ts as [|t ts IH]; intros after_word H; [constructor |].
  cbn [unspaceable] in H. destruct (is_separator_token t) eqn:E.
  - constructor; [now left | now apply IH with false].
  - rewrite !andb_true_iff in H. destruct H as [[Hw _] Hts].
    constructor; [now right | now apply IH with true].
Qed.

(** Tokens written one after the other, a word never next to a word,
    are read back as they are. *)
Lemma tokenize_unspaced (ts : list string) :
  (unspaceable false ts = true ->
   tokenizeExpression (String.concat "" ts) = ts)
  /\ (forall w : string,
        is_word w = true ->
        unspaceable true ts = true ->
        tokenizeExpression (w ++ String.concat "" ts) = w :: ts).
Proof.
  induction ts as [|t ts [IH1 IH2]]; split.
  - reflexivity.
  - intros w Hw _. simpl. rewrite append_empty_r. now apply tokenize_word.
  - intros H. cbn [unspaceable] in H. rewrite concat_unspaced_cons.
    destruct (is_separator_token t) eqn:E.
    + destruct t as [|c [|c' t]]; try discriminate E.
      pose proof (tokenize_separator c EmptyString (String.concat "" ts) E) as Hc.
      cbn [append] in *. rewrite Hc. simpl. now rewrite IH1.
    + rewrite !andb_true_iff in H. destruct H as [[Hw _] Hts]. now apply IH2.
  - intros w Hw H. cbn [unspaceable] in H. rewrite concat_unspaced_cons.
    destruct (is_separator_token t) eqn:E.
    + destruct t as [|c [|c' t]]; try discriminate E.
      cbn [append].
      rewrite (tokenize_separator c w _ E), (tokenize_word w Hw). simpl.
      now rewrite IH1.
    + rewrite !andb_true_iff in H. destruct H as [[_ Hf] _]. discriminate Hf.
Qed.

(** Tokens written with one space between them are read back as they
    are. *)
Lemma tokenize_spaced (ts : list string) :
  Forall (fun t => is_separator_token t = true \/ is_word t = true) ts ->
  tokenizeExpression (String.concat " " ts) = ts.
Proof.
  assert (Hone : forall t, is_separator_token t = true \/ is_word t = true ->
                           tokenizeExpression t = [t]).
  { intros t [H | H]; [now apply tokenize_separator_token | now apply tokenize_word]. }
  induction 1 as [|t ts Ht Hts IH]; [reflexivity |].
  destruct ts as [|u ts]; [now apply Hone |].
  change (String.concat " " (t :: u :: ts))
    with (t ++ String " " (String.concat " " (u :: ts)))%string.
  now rewrite tokenize_app_space, IH, (Hone t Ht).
Qed.

(** C9: spaces already present between the tokens change nothing. For
    tokens that can be written without spaces, the text with one space
    between tokens and the text with none are tokenized alike, into
    those tokens. *)
Theorem tokenize_ignores_spacing :
  forall tokens : list string,
    unspaceable false tokens = true ->
    tokenizeExpression (String.concat " " tokens)
    = tokenizeExpression (String.concat "" tokens)
    /\ tokenizeExpression (String.concat "" tokens) = tokens.
Proof.
  intros tokens H.
  destruct (tokenize_unspaced tokens) as [Hu _].
  rewrite (Hu H), (tokenize_spaced tokens (unspaceable_tokens tokens false H)).
  split; reflexivity.
Qed.

(** ["1 + 2 - 3"] and ["1+2-3"]. *)
Lemma tokenize_ignores_spacing_witness :
  unspaceable false ["1"; "+"; "2"; "-"; "3"] = true
  /\ tokenizeExpression "1 + 2 - 3" = tokenizeExpression "1+2-3"
  /\ tokenizeExpression "1+2-3" = ["1"; "+"; "2"; "-"; "3"].
Proof.
  split; [reflexivity |].
  exact (tokenize_ignores_spacing ["1"; "+"; "2"; "-"; "3"] eq_refl).
Defined.

(** C10, as the code has it: a TAB is no separator for [split(' ')], so
    ["1<TAB>2"] is one token, with a white space character in it. *)
Lemma tab_stays_in_token :
  tokenizeExpression (String "1" (String tab "2")) = [String "1" (String tab "2")]
  /\ contains isWhiteSpace (String "1" (String tab "2")) = true.
Proof. split; reflexivity. Qed.

(** C10, amended: every token is a non-empty string that is not made of
    white space only and holds no space character. *)
Theorem tokens_not_blank :
  forall expression : string,
    Forall (fun token => token <> EmptyString
                         /\ trim token <> EmptyString
                         /\ contains is_space token = false)
           (tokenizeExpression expression).
Proof.
  intros expression. apply Forall_forall. intros token Hin.
  unfold tokenizeExpression in Hin. apply filter_In in Hin.
  destruct Hin as [Hin Hblank].
  apply negb_true_iff, String.eqb_neq in Hblank.
  split; [| split].
  - intros ->. now apply Hblank.
  - exact Hblank.
  - exact (split_fragments " " _ _ Hin).
Qed.
(** ** Precedence in the pipeline *)

(** A number token pushes the Number it converts to. *)
Lemma eval_token_number (pow_approx : number -> number -> number)
    (evalStack : list number) (token : string) :
  is_number (JString token) = true ->
  eval_token pow_approx evalStack (JString token) = StringToNumber token :: evalStack.
Proof. intros H. unfold eval_token. unfold is_number in H. now rewrite H. Qed.

(** The tokens of three words with two operators between them. *)
Lemma tokenize_three_operands (a b c o1 o2 : string) :
  is_word a = true -> is_word b = true -> is_word c = true ->
  is_separator_token o1 = true -> is_separator_token o2 = true ->
  tokenizeExpression (String.concat " " [a; o1; b; o2; c]) = [a; o1; b; o2; c].
Proof.
  intros Ha Hb Hc H1 H2. apply tokenize_spaced.
  repeat (constructor; [cbv beta; auto |]). constructor.
Qed.

(** C7: multiplication binds tighter than addition in the whole
    pipeline, whichever comes first. For any three numbers [a], [b] and
    [c], ["a + b * c"] is converted to [a b c * +] and evaluates to
    [a + (b * c)], while ["a * b + c"] is converted to [a b * c +] and
    evaluates to [(a * b) + c]; in particular ["3 + 4 * 2"] evaluates
    to 11. *)
Theorem multiplication_before_addition :
  forall (pow_approx : number -> number -> number) (fuel : nat) (a b c : string),
    is_word a = true -> is_word b = true -> is_word c = true ->
    is_number (JString a) = true -> is_number (JString b) = true ->
    is_number (JString c) = true ->
    toPostfix fuel (tokens_of (a ++ " + " ++ b ++ " * " ++ c)%string)
    = Some (map JString [a; b; c; "*"; "+"])
    /\ calculate pow_approx fuel (a ++ " + " ++ b ++ " * " ++ c)%string
       = Some (JNumber (add (StringToNumber a)
                            (mul (StringToNumber b) (StringToNumber c))))
    /\ toPostfix fuel (tokens_of (a ++ " * " ++ b ++ " + " ++ c)%string)
       = Some (map JString [a; b; "*"; c; "+"])
    /\ calculate pow_approx fuel (a ++ " * " ++ b ++ " + " ++ c)%string
       = Some (JNumber (add (mul (StringToNumber a) (StringToNumber b))
                            (StringToNumber c)))
    /\ calculate pow_approx fuel "3 + 4 * 2" = Some (JNumber (of_Z 11)).
Proof.
  intros pow_approx fuel a b c Ha Hb Hc Na Nb Nc.
  assert (Ia : isNaN (JString a) = false) by (now apply negb_true_iff in Na).
  assert (Ib : isNaN (JString b) = false) by (now apply negb_true_iff in Nb).
  assert (Ic : isNaN (JString c) = false) by (now apply negb_true_iff in Nc).
  assert (T1 : tokens_of (a ++ " + " ++ b ++ " * " ++ c)%string
               = [JString a; JString "+"; JString b; JString "*"; JString c]).
  { unfold tokens_of.
    change (a ++ " + " ++ b ++ " * " ++ c)%string
      with (String.concat " " [a; "+"; b; "*"; c]).
    now rewrite tokenize_three_operands. }
  assert (T2 : tokens_of (a ++ " * " ++ b ++ " + " ++ c)%string
               = [JString a; JString "*"; JString b; JString "+"; JString c]).
  { unfold tokens_of.
    change (a ++ " * " ++ b ++ " + " ++ c)%string
      with (String.concat " " [a; "*"; b; "+"; c]).
    now rewrite tokenize_three_operands. }
  assert (P1 : toPostfix fuel (tokens_of (a ++ " + " ++ b ++ " * " ++ c)%string)
               = Some (map JString [a; b; c; "*"; "+"])).
  { rewrite T1.
    now rewrite (two_operators_grouping fuel (JString a) (JString b) (JString c) "+" "*")
      by (simpl; auto). }
  assert (P2 : toPostfix fuel (tokens_of (a ++ " * " ++ b ++ " + " ++ c)%string)
               = Some (map JString [a; b; "*"; c; "+"])).
  { rewrite T2.
    now rewrite (two_operators_grouping fuel (JString a) (JString b) (JString c) "*" "+")
      by (simpl; auto). }
  split; [exact P1 | split; [| split; [exact P2 | split; [| reflexivity]]]].
  - unfold calculate. rewrite P1. cbn [option_map]. f_equal.
    unfold evaluateExpression, eval_loop. cbn [map fold_left].
    rewrite (eval_token_number pow_approx [] a Na).
    rewrite (eval_token_number pow_approx _ b Nb).
    rewrite (eval_token_number pow_approx _ c Nc). reflexivity.
  - unfold calculate. rewrite P2. cbn [option_map]. f_equal.
    unfold evaluateExpression, eval_loop. cbn [map fold_left].
    rewrite (eval_token_number pow_approx [] a Na).
    rewrite (eval_token_number pow_approx _ b Nb).
    change (eval_token pow_approx [StringToNumber b; StringToNumber a] (JString "*"))
      with [mul (StringToNumber a) (StringToNumber b)].
    rewrite (eval_token_number pow_approx _ c Nc). reflexivity.
Qed.

(** ["3 + 4 * 2"] and ["3 * 4 + 2"]: 11 and 14. *)
Lemma multiplication_before_addition_witness :
  is_word "3" = true /\ is_word "4" = true /\ is_word "2" = true
  /\ is_number (JString "3") = true /\ is_number (JString "4") = true
  /\ is_number (JString "2") = true
  /\ toPostfix 0 (tokens_of "3 + 4 * 2") = Some (map JString ["3"; "4"; "2"; "*"; "+"])
  /\ calculate (fun _ _ => NaN) 0 "3 + 4 * 2"
     = Some (JNumber (add (StringToNumber "3")
                          (mul (StringToNumber "4") (StringToNumber "2"))))
  /\ toPostfix 0 (tokens_of "3 * 4 + 2") = Some (map JString ["3"; "4"; "*"; "2"; "+"])
  /\ calculate (fun _ _ => NaN) 0 "3 * 4 + 2"
     = Some (JNumber (add (mul (StringToNumber "3") (StringToNumber "4"))
                          (StringToNumber "2")))
  /\ calculate (fun _ _ => NaN) 0 "3 + 4 * 2" = Some (JNumber (of_Z 11)).
Proof.
  do 6 (split; [reflexivity |]).
  exact (multiplication_before_addition (fun _ _ => NaN) 0 "3" "4" "2"
           eq_refl eq_refl eq_refl eq_refl eq_refl eq_refl).
Defined.

(** ** The operator tables *)

Lemma operator_string_cases (op : string) :
  isOperator (JString op) = true ->
  op = "+" \/ op = "-" \/ op = "*" \/ op = "/" \/ op = "^".
Proof.
  unfold isOperator, includes. simpl.
  rewrite !orb_true_iff, !String.eqb_eq. intros H.
  decompose [or] H; subst; auto 10; discriminate.
Qed.

Lemma operator_has_precedence (v : jsval) :
  isOperator v = true -> exists p, operatorPrecendence v = Some p /\ 1 <= p <= 3.
Proof.
  destruct v as [|n|s]; try discriminate.
  intros H. apply operator_string_cases in H.
  decompose [or] H; subst; simpl; eexists; (split; [reflexivity | lia]).
Qed.

Lemma precedence_is_operator (v : jsval) (p : Z) :
  operatorPrecendence v = Some p -> isOperator v = true.
Proof.
  destruct v as [|n|s]; try discriminate.
  unfold isOperator, includes. simpl.
  destruct (String.eqb s "+"); [reflexivity |].
  destruct (String.eqb s "-"); [reflexivity |].
  destruct (String.eqb s "*"); [reflexivity |].
  destruct (String.eqb s "/"); [reflexivity |].
  destruct (String.eqb s "^"); [reflexivity | discriminate].
Qed.

Lemma operator_not_number (v : jsval) :
  isOperator v = true -> isNaN v = true /\ is_open v = false /\ is_close v = false.
Proof.
  destruct v as [|n|s]; try discriminate.
  intros H. apply operator_string_cases in H.
  decompose [or] H; subst; repeat split; reflexivity.
Qed.

(** X17: The list [operators] and the table [operatorPrecendence] name the
    same tokens, with precedences from 1 to 3, and an operator is
    neither a number nor a parenthesis: the tests of the converter and
    of the evaluator never overlap. *)
Theorem operator_classes (v : jsval) :
  (isOperator v = true <-> exists p, operatorPrecendence v = Some p /\ 1 <= p <= 3)
  /\ isOperator v && (is_number v || is_open v || is_close v) = false.
Proof.
  split; [split |].
  - apply operator_has_precedence.
  - intros (p & Hp & _). now apply precedence_is_operator with p.
  - destruct (isOperator v) eqn:E; [| reflexivity].
    destruct (operator_not_number v E) as (Hn & Ho & Hc).
    unfold is_number. now rewrite Hn, Ho, Hc.
Qed.

Lemma operator_precedence (op : string) :
  isOperator (JString op) = true ->
  operatorPrecendence (JString op) = Some (precedence op) /\ 1 <= precedence op <= 3.
Proof.
  intros H. apply operator_string_cases in H.
  decompose [or] H; subst; split; try reflexivity; unfold precedence; simpl; lia.
Qed.

(** ** More on the converter *)

(** A run of the [')'] loop that ends within [fuel] turns ends the same
    way with more. *)
Lemma pop_until_open_more_fuel (fuel : nat) :
  forall (fuel' : nat) (cur : jsval) (st out : list jsval) r,
    pop_until_open fuel cur st out = Some r ->
    (fuel <= fuel')%nat ->
    pop_until_open fuel' cur st out = Some r.
Proof.
  induction fuel as [|fuel IH]; intros fuel' cur st out r H Hle.
  - destruct (is_open cur) eqn:E.
    + rewrite pop_until_open_found in * by exact E. exact H.
    + now rewrite pop_until_open_no_fuel in H.
  - destruct (is_open cur) eqn:E.
    + rewrite pop_until_open_found in * by exact E. exact H.
    + destruct fuel' as [|fuel']; [lia |].
      rewrite pop_until_open_turn in * by exact E.
      unfold close_group in *. destruct (pop st) as [c s'].
      apply IH with (fuel' := fuel') in H; [exact H | lia].
Qed.

Lemma toPostfix_loop_more_fuel (e : list jsval) :
  forall (fuel fuel' : nat) (st out res : list jsval),
    toPostfix_loop fuel e st out = Some res ->
    (fuel <= fuel')%nat ->
    toPostfix_loop fuel' e st out = Some res.
Proof.
  induction e as [|token e IH]; intros fuel fuel' st out res H Hle; [exact H |].
  destruct (is_open token) eqn:Eo; [| destruct (is_close token) eqn:Ec].
  - rewrite loop_open in * by exact Eo. eauto.
  - rewrite loop_close in * by exact Ec.
    unfold close_group in *. destruct (pop st) as [c s'].
    destruct (pop_until_open fuel c s' out) as [[st1 out1] |] eqn:Eg; [| discriminate].
    rewrite (pop_until_open_more_fuel _ _ _ _ _ _ Eg Hle). eauto.
  - destruct (isNaN token) eqn:En; [destruct (isOperator token) eqn:Ep |].
    + rewrite loop_operator in * by assumption.
      destruct (pop_higher token st out) as [st1 out1]. eauto.
    + rewrite loop_other in * by assumption. eauto.
    + rewrite loop_number in * by exact En. eauto.
Qed.

(** What [toPostfix] returns does not depend on the bound. *)
Lemma toPostfix_fuel_irrelevant (e : list jsval) (f1 f2 : nat) (o1 o2 : list jsval) :
  toPostfix f1 e = Some o1 -> toPostfix f2 e = Some o2 -> o1 = o2.
Proof.
  unfold toPostfix. intros H1 H2.
  apply toPostfix_loop_more_fuel with (fuel' := Nat.max f1 f2) in H1; [| lia].
  apply toPostfix_loop_more_fuel with (fuel' := Nat.max f1 f2) in H2; [| lia].
  congruence.
Qed.

(** The operator loop moves a top part of the stack to the output
    queue, in order. *)
Lemma pop_higher_split (token : jsval) (st : list jsval) :
  forall (out st' out' : list jsval),
    pop_higher token st out = (st', out') ->
    exists moved,
      st = moved ++ st' /\ out' = out ++ moved
      /\ Forall (fun v => isOperator v = true) moved.
Proof.
  induction st as [|cur rest IH]; intros out st' out'; simpl.
  - intros [= <- <-]. exists [].
    split; [reflexivity | split; [now rewrite app_nil_r | constructor]].
  - destruct (ge_property _ _) eqn:G.
    + intros H. apply IH in H. destruct H as (moved & -> & -> & Hm).
      exists (cur :: moved). rewrite <- app_assoc.
      split; [reflexivity | split; [reflexivity |]].
      constructor; [| exact Hm].
      destruct (operatorPrecendence cur) as [p |] eqn:Ep; [| discriminate G].
      now apply precedence_is_operator with p.
    + intros [= <- <-]. exists [].
    split; [reflexivity | split; [now rewrite app_nil_r | constructor]].
Qed.

Lemma open_not_read_by_evaluator (v : jsval) :
  is_open v = true -> evaluator_reads v = false.
Proof. intros H. apply is_open_eq in H. now subst. Qed.

Lemma close_not_read_by_evaluator (v : jsval) :
  is_close v = true -> evaluator_reads v = false.
Proof. intros H. apply is_close_eq in H. now subst. Qed.

Lemma evaluator_reads_number (v : jsval) :
  isNaN v = false -> evaluator_reads v = true.
Proof. intros H. unfold evaluator_reads, is_number. now rewrite H. Qed.

Lemma evaluator_reads_operator (v : jsval) :
  isOperator v = true -> evaluator_reads v = true.
Proof. intros H. unfold evaluator_reads. rewrite H. apply orb_true_r. Qed.

Lemma evaluator_reads_other (v : jsval) :
  isNaN v = true -> isOperator v = false -> evaluator_reads v = false.
Proof. intros H1 H2. unfold evaluator_reads, is_number. now rewrite H1, H2. Qed.

Lemma filter_nothing {A : Type} (p : A -> bool) (l : list A) :
  Forall (fun v => p v = false) l -> filter p l = [].
Proof.
  induction 1 as [|v l Hv _ IH]; [reflexivity |]. simpl. now rewrite Hv.
Qed.

(** X8: A token that is no number, parenthesis or operator leaves no trace:
    the converter returns what it returns without it. *)
Theorem toPostfix_skips_unread_tokens (fuel : nat) (expression : list jsval) :
  toPostfix fuel expression = toPostfix fuel (filter converter_reads expression).
Proof.
  unfold toPostfix. generalize (@nil jsval) at 1 3 as st.
  generalize (@nil jsval) as out.
  induction expression as [|token e IH]; intros out st; [reflexivity |].
  cbn [filter]. unfold converter_reads at 1. unfold is_number.
  destruct (is_open token) eqn:Eo; [| destruct (is_close token) eqn:Ec].
  - rewrite orb_true_r. cbn [orb]. rewrite !loop_open by exact Eo. apply IH.
  - rewrite orb_true_r. cbn [orb]. rewrite !loop_close by exact Ec.
    destruct (close_group fuel st out) as [[st1 out1] |]; [apply IH | reflexivity].
  - destruct (isNaN token) eqn:En; [destruct (isOperator token) eqn:Ep |]; cbn [negb orb].
    + rewrite !loop_operator by assumption.
      destruct (pop_higher token st out) as [st1 out1]. apply IH.
    + rewrite loop_other by assumption. apply IH.
    + rewrite !loop_number by exact En. apply IH.
Qed.

(** The numbers leave the converter in the order in which they came. *)
Lemma toPostfix_loop_numbers (fuel : nat) (e : list jsval) :
  forall (st out res : list jsval),
    Forall (fun v => is_number v = false) st ->
    toPostfix_loop fuel e st out = Some res ->
    filter is_number res = filter is_number out ++ filter is_number e.
Proof.
  induction e as [|token e IH]; intros st out res Hst H.
  - injection H as <-. rewrite pop_rest_app, filter_app, (filter_nothing _ st Hst).
    reflexivity.
  - assert (Hn : is_number token = negb (isNaN token)) by reflexivity.
    cbn [filter]. rewrite Hn.
    destruct (is_open token) eqn:Eo; [| destruct (is_close token) eqn:Ec].
    + rewrite loop_open in H by exact Eo. rewrite (open_isNaN _ Eo) in *. cbn [negb].
      apply IH in H; [exact H |]. now constructor.
    + rewrite loop_close in H by exact Ec. rewrite (close_isNaN _ Ec). cbn [negb].
      destruct (close_group fuel st out) as [[st1 out1] |] eqn:Eg; [| discriminate].
      apply close_group_inv in Eg. destruct Eg as (ops & -> & -> & _).
      apply Forall_app in Hst. destruct Hst as [Hops Hbelow].
      apply Forall_inv_tail in Hbelow.
      apply IH in H; [| exact Hbelow].
      now rewrite H, filter_app, (filter_nothing _ ops Hops), app_nil_r.
    + destruct (isNaN token) eqn:En; [destruct (isOperator token) eqn:Ep |]; cbn [negb] in *.
      * rewrite loop_operator in H by assumption.
        destruct (pop_higher token st out) as [st1 out1] eqn:Eh.
        apply pop_higher_split in Eh. destruct Eh as (moved & -> & -> & _).
        apply Forall_app in Hst. destruct Hst as [Hmoved Hst1].
        apply IH in H.
        -- now rewrite H, filter_app, (filter_nothing _ moved Hmoved), app_nil_r.
        -- now constructor.
      * rewrite loop_other in H by assumption. now apply IH in H.
      * rewrite loop_number in H by exact En. apply IH in H; [| exact Hst].
        rewrite H, filter_app. cbn [filter]. rewrite Hn.
        now rewrite <- app_assoc.
Qed.

(** X9: The numbers of the input are those of the output, in the same
    order. *)
Theorem toPostfix_keeps_operand_order (fuel : nat) (expression out : list jsval) :
  toPostfix fuel expression = Some out ->
  filter is_number out = filter is_number expression.
Proof.
  intros H. apply toPostfix_loop_numbers in H; [exact H | constructor].
Qed.

Lemma toPostfix_loop_permutation (fuel : nat) (e : list jsval) :
  forall (st out res : list jsval),
    toPostfix_loop fuel e st out = Some res ->
    Permutation (filter evaluator_reads res)
                (filter evaluator_reads out ++ filter evaluator_reads st
                 ++ filter evaluator_reads e).
Proof.
  induction e as [|token e IH]; intros st out res H.
  - injection H as <-. rewrite pop_rest_app, filter_app. cbn [filter].
    now rewrite app_nil_r.
  - cbn [filter].
    destruct (is_open token) eqn:Eo; [| destruct (is_close token) eqn:Ec].
    + rewrite loop_open in H by exact Eo. apply IH in H. cbn [filter] in H.
      now rewrite (open_not_read_by_evaluator _ Eo) in *.
    + rewrite loop_close in H by exact Ec.
      rewrite (close_not_read_by_evaluator _ Ec).
      destruct (close_group fuel st out) as [[st1 out1] |] eqn:Eg; [| discriminate].
      apply close_group_inv in Eg. destruct Eg as (ops & -> & -> & _).
      apply IH in H. rewrite !filter_app in *. cbn [filter].
      rewrite <- !app_assoc in *. exact H.
    + destruct (isNaN token) eqn:En; [destruct (isOperator token) eqn:Ep |].
      * rewrite loop_operator in H by assumption.
        rewrite (evaluator_reads_operator _ Ep).
        destruct (pop_higher token st out) as [st1 out1] eqn:Eh.
        apply pop_higher_split in Eh. destruct Eh as (moved & -> & -> & _).
        apply IH in H. rewrite !filter_app in *. cbn [filter] in H.
        rewrite (evaluator_reads_operator _ Ep) in H.
        rewrite <- !app_assoc in *.
        etransitivity; [exact H |].
        do 2 apply Permutation_app_head.
        apply Permutation_middle.
      * rewrite loop_other in H by assumption.
        rewrite (evaluator_reads_other _ En Ep). now apply IH in H.
      * rewrite loop_number in H by exact En.
        rewrite (evaluator_reads_number _ En). apply IH in H.
        rewrite filter_app in H. cbn [filter] in H.
        rewrite (evaluator_reads_number _ En) in H. rewrite <- app_assoc in H.
        etransitivity; [exact H |].
        apply Permutation_app_head. cbn [app].
        apply Permutation_cons_app. reflexivity.
Qed.

(** X10: Numbers and operators are neither lost nor repeated: what the
    converter returns holds, besides parentheses, the numbers and
    operators of its input, each as often as the input. *)
Theorem toPostfix_permutes_tokens (fuel : nat) (expression out : list jsval) :
  toPostfix fuel expression = Some out ->
  Permutation (filter evaluator_reads out) (filter evaluator_reads expression).
Proof.
  intros H. apply toPostfix_loop_permutation in H. exact H.
Qed.

Lemma toPostfix_loop_no_close (fuel : nat) (e : list jsval) :
  forall (st out res : list jsval),
    Forall (fun v => is_close v = false) st ->
    Forall (fun v => is_close v = false) out ->
    toPostfix_loop fuel e st out = Some res ->
    Forall (fun v => is_close v = false) res.
Proof.
  induction e as [|token e IH]; intros st out res Hst Hout H.
  - injection H as <-. rewrite pop_rest_app. apply Forall_app. now split.
  - destruct (is_open token) eqn:Eo; [| destruct (is_close token) eqn:Ec].
    + rewrite loop_open in H by exact Eo. apply IH in H; auto.
      constructor; [| exact Hst]. apply is_open_eq in Eo. now subst.
    + rewrite loop_close in H by exact Ec.
      destruct (close_group fuel st out) as [[st1 out1] |] eqn:Eg; [| discriminate].
      apply close_group_inv in Eg. destruct Eg as (ops & -> & -> & _).
      apply Forall_app in Hst. destruct Hst as [Hops Hbelow].
      apply Forall_inv_tail in Hbelow.
      apply IH in H; auto. apply Forall_app. now split.
    + destruct (isNaN token) eqn:En; [destruct (isOperator token) eqn:Ep |].
      * rewrite loop_operator in H by assumption.
        destruct (pop_higher token st out) as [st1 out1] eqn:Eh.
        apply pop_higher_split in Eh. destruct Eh as (moved & -> & -> & _).
        apply Forall_app in Hst. destruct Hst as [Hmoved Hst1].
        apply IH in H; auto.
        apply Forall_app. now split.
      * rewrite loop_other in H by assumption. now apply IH in H.
      * rewrite loop_number in H by exact En. apply IH in H; auto.
        apply Forall_app. split; [exact Hout |]. now repeat constructor.
Qed.

Lemma count_open_zero (l : list jsval) :
  count_open l = 0%nat -> Forall (fun v => is_open v = false) l.
Proof.
  induction l as [|v l IH]; [constructor |].
  rewrite count_open_cons. destruct (is_open v) eqn:E; [discriminate |].
  intros H. constructor; [exact E | now apply IH].
Qed.

(** X11: No [')'] reaches the output, and no ['('] either when every ['(']
    of the input is closed. *)
Theorem toPostfix_output_parentheses (fuel : nat) (expression out : list jsval) :
  toPostfix fuel expression = Some out ->
  Forall (fun v => is_close v = false) out
  /\ (paren_depth 0 expression = Some 0%nat ->
      Forall (fun v => is_open v = false) out).
Proof.
  intros H. split.
  - unfold toPostfix in H. apply toPostfix_loop_no_close in H; auto.
  - intros Hd.
    destruct (toPostfix_loop_returns expression [] [] (List.length expression) 0 Hd)
      as (res & Hres & Hc); [simpl; lia |].
    rewrite (toPostfix_fuel_irrelevant _ _ _ _ _ H Hres).
    now apply count_open_zero.
Qed.

(** The three theorems at ["(1 + 2) * 3"]. *)
Lemma toPostfix_keeps_operand_order_witness :
  toPostfix 1 (tokens_of "(1 + 2) * 3")
  = Some (map JString ["1"; "2"; "+"; "3"; "*"])
  /\ filter is_number (map JString ["1"; "2"; "+"; "3"; "*"])
     = filter is_number (tokens_of "(1 + 2) * 3").
Proof.
  split; [reflexivity |].
  exact (toPostfix_keeps_operand_order 1 (tokens_of "(1 + 2) * 3")
           (map JString ["1"; "2"; "+"; "3"; "*"]) eq_refl).
Defined.

Lemma toPostfix_permutes_tokens_witness :
  toPostfix 1 (tokens_of "(1 + 2) * 3")
  = Some (map JString ["1"; "2"; "+"; "3"; "*"])
  /\ Permutation (filter evaluator_reads (map JString ["1"; "2"; "+"; "3"; "*"]))
                 (filter evaluator_reads (tokens_of "(1 + 2) * 3")).
Proof.
  split; [reflexivity |].
  exact (toPostfix_permutes_tokens 1 (tokens_of "(1 + 2) * 3")
           (map JString ["1"; "2"; "+"; "3"; "*"]) eq_refl).
Defined.

Lemma toPostfix_output_parentheses_witness :
  toPostfix 1 (tokens_of "(1 + 2) * 3")
  = Some (map JString ["1"; "2"; "+"; "3"; "*"])
  /\ Forall (fun v => is_close v = false) (map JString ["1"; "2"; "+"; "3"; "*"])
  /\ (paren_depth 0 (tokens_of "(1 + 2) * 3") = Some 0%nat ->
      Forall (fun v => is_open v = false) (map JString ["1"; "2"; "+"; "3"; "*"])).
Proof.
  split; [reflexivity |].
  exact (toPostfix_output_parentheses 1 (tokens_of "(1 + 2) * 3")
           (map JString ["1"; "2"; "+"; "3"; "*"]) eq_refl).
Defined.

(** ** Expressions *)

Lemma postfix_emitted_pending (e : expr) : postfix e = emitted e ++ pending e.
Proof.
  induction e as [t | op l IHl r IHr | e IH]; simpl.
  - reflexivity.
  - now rewrite IHr, <- !app_assoc.
  - now rewrite app_nil_r.
Qed.

Lemma pending_length (e : expr) :
  (List.length (pending e) <= List.length (infix e))%nat.
Proof.
  induction e as [t | op l IHl r IHr | e IH]; simpl; try lia.
  rewrite !length_app. simpl. lia.
Qed.

(** The operators an expression leaves on the stack bind at least as
    tightly as the expression. *)
Lemma pending_precedence (e : expr) :
  tokens_ok e = true -> grouped e = true ->
  Forall (fun op => isOperator (JString op) = true /\ level e <= precedence op)
         (pending e).
Proof.
  induction e as [t | op l IHl r IHr | e IH];
    cbn [tokens_ok grouped pending level]; intros Hok Hg; try constructor.
  rewrite !andb_true_iff in Hok. rewrite !andb_true_iff in Hg. destruct Hok as [[Hop Hl] Hr].
  destruct Hg as [[[Hgl Hgr] Hle] Hlt]. apply Z.ltb_lt in Hlt.
  apply Forall_app. split.
  - apply Forall_impl with (2 := IHr Hr Hgr). intros o [Ho Hp]. split; [exact Ho | lia].
  - repeat constructor; [exact Hop | lia].
Qed.

Lemma stays_weaken (st : list jsval) (p q : Z) :
  stays st p -> p <= q -> stays st q.
Proof.
  destruct st as [|top st]; [trivial |]. unfold stays, ge_property.
  destruct (operatorPrecendence top) as [x |]; [| trivial].
  rewrite !Z.leb_gt. lia.
Qed.

(** An operator moves to the output queue the operators above it that
    bind at least as tightly, and no more when the next one stays. *)
Lemma pop_higher_pending (op : string) (moved : list string) :
  forall st out : list jsval,
    isOperator (JString op) = true ->
    Forall (fun o => isOperator (JString o) = true /\ precedence op <= precedence o)
           moved ->
    stays st (precedence op) ->
    pop_higher (JString op) (map JString moved ++ st) out
    = (st, out ++ map JString moved).
Proof.
  intros st out Hop. destruct (operator_precedence op Hop) as [Hp _].
  revert out. induction moved as [|o moved IH]; intros out Hm Hst.
  - cbn [map app]. rewrite app_nil_r.
    destruct st as [|top st]; [reflexivity |].
    cbn [pop_higher]. rewrite Hp. unfold stays in Hst. now rewrite Hst.
  - inversion Hm as [|? ? [Ho Hle] Hm']; subst.
    cbn [map app pop_higher]. rewrite Hp.
    destruct (operator_precedence o Ho) as [Hq _]. rewrite Hq.
    cbn [ge_property]. apply Z.leb_le in Hle. rewrite Hle.
    rewrite IH by assumption. now rewrite <- app_assoc.
Qed.

Lemma pending_not_open (e : expr) :
  tokens_ok e = true ->
  Forall (fun v => is_open v = false) (map JString (pending e)).
Proof.
  induction e as [t | op l IHl r IHr | e IH]; simpl; intros Hok; try constructor.
  rewrite !andb_true_iff in Hok. destruct Hok as [[Hop Hl] Hr].
  rewrite map_app. apply Forall_app. split; [now apply IHr |].
  repeat constructor. now apply operator_not_number in Hop.
Qed.

(** Reading the tokens of an expression: its operands and the operators
    already applied go to the output queue, the others wait on the
    stack, above what was there. *)
Lemma toPostfix_loop_infix (fuel : nat) (e : expr) :
  forall (rest st out : list jsval),
    tokens_ok e = true -> grouped e = true ->
    (List.length (infix e) <= fuel)%nat ->
    stays st (level e) ->
    toPostfix_loop fuel (map JString (infix e) ++ rest) st out
    = toPostfix_loop fuel rest (map JString (pending e) ++ st)
                     (out ++ map JString (emitted e)).
Proof.
  induction e as [t | op l IHl r IHr | e IH]; intros rest st out Hok Hg Hfuel Hst.
  - cbn [infix map app pending emitted]. simpl in Hok.
    rewrite loop_number; [reflexivity |].
    unfold is_number in Hok. now apply negb_true_iff in Hok.
  - cbn [tokens_ok grouped level] in *. rewrite !andb_true_iff in Hok. rewrite !andb_true_iff in Hg.
    destruct Hok as [[Hop Hl] Hr]. destruct Hg as [[[Hgl Hgr] Hle] Hlt].
    apply Z.leb_le in Hle. apply Z.ltb_lt in Hlt.
    cbn [infix] in *. rewrite length_app in Hfuel. cbn [List.length] in Hfuel.
    rewrite map_app, <- app_assoc. cbn [map app].
    rewrite IHl; [| assumption | assumption | lia | apply stays_weaken with (1 := Hst); exact Hle].
    destruct (operator_not_number _ Hop) as (Hn & Ho & Hc).
    rewrite loop_operator by assumption.
    rewrite (pop_higher_pending op (pending l)); [| exact Hop | | exact Hst].
    + rewrite IHr; [| assumption | assumption | lia |].
      * cbn [pending emitted]. rewrite (postfix_emitted_pending l).
        rewrite !map_app, <- !app_assoc. reflexivity.
      * unfold stays. destruct (operator_precedence op Hop) as [Hp _].
        rewrite Hp. cbn [ge_property]. apply Z.leb_gt. exact Hlt.
    + apply Forall_impl with (2 := pending_precedence l Hl Hgl).
      intros o [Ho' Hp']. split; [exact Ho' | lia].
  - cbn [infix] in Hfuel. cbn [List.length] in Hfuel.
    rewrite length_app in Hfuel. cbn [List.length] in Hfuel.
    cbn [infix map app tokens_ok grouped] in *.
    rewrite loop_open by reflexivity.
    rewrite map_app, <- app_assoc. cbn [map app].
    rewrite IH; [| exact Hok | exact Hg | lia | reflexivity].
    rewrite loop_close by reflexivity.
    rewrite close_group_found;
      [| now apply pending_not_open
       | rewrite length_map; pose proof (pending_length e); lia].
    cbn [pending emitted app]. rewrite (postfix_emitted_pending e).
    now rewrite map_app, <- app_assoc.
Qed.

Lemma toPostfix_infix_postfix (fuel : nat) (e : expr) :
  tokens_ok e = true -> grouped e = true ->
  (List.length (infix e) <= fuel)%nat ->
  toPostfix fuel (map JString (infix e)) = Some (map JString (postfix e)).
Proof.
  intros Hok Hg Hfuel. unfold toPostfix.
  rewrite <- (app_nil_r (map JString (infix e))).
  rewrite toPostfix_loop_infix by (auto; exact I).
  cbn [toPostfix_loop]. rewrite pop_rest_app, !app_nil_r, (postfix_emitted_pending e).
  now rewrite map_app.
Qed.

(** X12: The converter is right about precedence, grouping and parentheses:
    the infix tokens of an expression are turned into its postfix
    tokens. *)
Theorem toPostfix_infix (fuel : nat) (e : expr) :
  tokens_ok e = true -> grouped e = true ->
  (List.length (infix e) <= fuel)%nat ->
  toPostfix fuel (map JString (infix e)) = Some (map JString (postfix e)).
Proof. apply toPostfix_infix_postfix. Qed.

(** [(1 + 2) * 3 ^ 2] *)
Lemma toPostfix_infix_witness :
  tokens_ok (Bin "*" (Paren (Bin "+" (Lit "1") (Lit "2"))) (Bin "^" (Lit "3") (Lit "2")))
  = true
  /\ grouped (Bin "*" (Paren (Bin "+" (Lit "1") (Lit "2"))) (Bin "^" (Lit "3") (Lit "2")))
     = true
  /\ toPostfix 9 (map JString ["("; "1"; "+"; "2"; ")"; "*"; "3"; "^"; "2"])
     = Some (map JString ["1"; "2"; "+"; "3"; "2"; "^"; "*"]).
Proof.
  split; [reflexivity | split; [reflexivity |]].
  apply (toPostfix_infix 9
           (Bin "*" (Paren (Bin "+" (Lit "1") (Lit "2"))) (Bin "^" (Lit "3") (Lit "2"))));
    [reflexivity | reflexivity | simpl; lia].
Defined.

Section ExpressionValue.

Variable pow_approx : number -> number -> number.

(** The evaluator on the postfix tokens of an expression pushes its
    value. *)
Lemma eval_postfix (e : expr) :
  forall evalStack : list number,
    tokens_ok e = true ->
    fold_left (eval_token pow_approx) (map JString (postfix e)) evalStack
    = value pow_approx e :: evalStack.
Proof.
  induction e as [t | op l IHl r IHr | e IH]; intros evalStack Hok; simpl in Hok.
  - cbn [postfix map fold_left value]. unfold eval_token.
    unfold is_number in Hok. now rewrite Hok.
  - rewrite !andb_true_iff in Hok. destruct Hok as [[Hop Hl] Hr].
    cbn [postfix value]. rewrite !map_app, !fold_left_app, IHl, IHr by assumption.
    apply operator_string_cases in Hop.
    decompose [or] Hop; subst; reflexivity.
  - cbn [postfix value]. now apply IH.
Qed.

(** X13: On the postfix tokens of an expression the evaluator returns the
    value of the expression. *)
Theorem evaluate_postfix (e : expr) :
  tokens_ok e = true ->
  evaluateExpression pow_approx (map JString (postfix e))
  = JNumber (value pow_approx e).
Proof.
  intros Hok. unfold evaluateExpression, eval_loop.
  now rewrite eval_postfix.
Qed.

End ExpressionValue.

(** [1 2 + 3 *], the postfix tokens of [(1 + 2) * 3]. *)
Lemma evaluate_postfix_witness :
  tokens_ok (Bin "*" (Paren (Bin "+" (Lit "1") (Lit "2"))) (Lit "3")) = true
  /\ evaluateExpression (fun _ _ => NaN) (map JString ["1"; "2"; "+"; "3"; "*"])
     = JNumber (mul (add (StringToNumber "1") (StringToNumber "2")) (StringToNumber "3")).
Proof.
  split; [reflexivity |].
  exact (evaluate_postfix (fun _ _ => NaN)
           (Bin "*" (Paren (Bin "+" (Lit "1") (Lit "2"))) (Lit "3")) eq_refl).
Defined.

(** ** More on the evaluator *)

Section EvaluateMore.

Variable pow_approx : number -> number -> number.




(** X15: The evaluator skips what is neither a number nor an operator,
    parentheses included. *)
Theorem evaluate_skips_unread_tokens (expression : list jsval) :
  evaluateExpression pow_approx expression
  = evaluateExpression pow_approx (filter evaluator_reads expression).
Proof.
  unfold evaluateExpression, eval_loop. f_equal.
  generalize (@nil number) as st.
  induction expression as [|token e IH]; intros st; [reflexivity |].
  cbn [filter fold_left]. destruct (evaluator_reads token) eqn:R.
  - cbn [fold_left]. apply IH.
  - rewrite <- IH. f_equal. unfold eval_token.
    unfold evaluator_reads, is_number in R. apply orb_false_iff in R.
    destruct R as [R1 R2]. now rewrite R1, R2.
Qed.

End EvaluateMore.

(** ** From the text of an expression to its value *)

Lemma operator_is_separator_token (op : string) :
  isOperator (JString op) = true -> is_separator_token op = true.
Proof.
  intros H. apply operator_string_cases in H.
  decompose [or] H; subst; reflexivity.
Qed.

Lemma word_not_separator_token (t : string) :
  is_word t = true -> is_separator_token t = false.
Proof.
  unfold is_word. rewrite !andb_true_iff, !negb_true_iff. intros [[H _] _].
  destruct t as [|c [|c' t]]; try reflexivity.
  simpl in H. now rewrite orb_false_r in H.
Qed.

Lemma infix_tokens (e : expr) :
  tokens_ok e = true -> literals_are_words e = true ->
  Forall (fun t => is_separator_token t = true \/ is_word t = true) (infix e).
Proof.
  induction e as [t | op l IHl r IHr | e IH];
    cbn [tokens_ok literals_are_words infix]; intros Hok Hw.
  - constructor; [cbv beta; now right | constructor].
  - rewrite !andb_true_iff in Hok. rewrite !andb_true_iff in Hw.
    destruct Hok as [[Hop Hl] Hr]. destruct Hw as [Hwl Hwr].
    apply Forall_app. split; [now apply IHl |].
    constructor; [cbv beta; left; now apply operator_is_separator_token | now apply IHr].
  - constructor; [cbv beta; now left |]. apply Forall_app. split; [now apply IH |].
    constructor; [cbv beta; now left | constructor].
Qed.

(** In the tokens of an expression no two words follow each other. *)
Lemma infix_unspaceable (e : expr) :
  forall rest : list string,
    tokens_ok e = true -> literals_are_words e = true ->
    unspaceable (ends_with_word e) rest = true ->
    unspaceable false (infix e ++ rest) = true.
Proof.
  induction e as [t | op l IHl r IHr | e IH]; intros rest;
    cbn [tokens_ok literals_are_words infix ends_with_word]; intros Hok Hw Hrest.
  - cbn [app unspaceable]. rewrite (word_not_separator_token _ Hw), Hw, Hrest.
    reflexivity.
  - rewrite !andb_true_iff in Hok. rewrite !andb_true_iff in Hw.
    destruct Hok as [[Hop Hl] Hr]. destruct Hw as [Hwl Hwr].
    rewrite <- app_assoc. apply IHl; [assumption | assumption |].
    cbn [app unspaceable]. rewrite (operator_is_separator_token _ Hop).
    now apply IHr.
  - cbn [app unspaceable is_separator_token isSeparator]. cbn.
    rewrite <- app_assoc. apply IH; [assumption | assumption |].
    cbn [app unspaceable]. exact Hrest.
Qed.

(** X16: The pipeline computes the value of an expression from its text,
    written with one space between tokens or with none. *)
Theorem calculate_expression
    (pow_approx : number -> number -> number) (fuel : nat) (e : expr) :
  tokens_ok e = true -> grouped e = true -> literals_are_words e = true ->
  (List.length (infix e) <= fuel)%nat ->
  calculate pow_approx fuel (String.concat " " (infix e))
  = Some (JNumber (value pow_approx e))
  /\ calculate pow_approx fuel (String.concat "" (infix e))
     = Some (JNumber (value pow_approx e)).
Proof.
  intros Hok Hg Hw Hfuel.
  assert (Hu : unspaceable false (infix e) = true).
  { rewrite <- (app_nil_r (infix e)). now apply infix_unspaceable. }
  unfold calculate, tokens_of.
  rewrite (tokenize_spaced _ (infix_tokens e Hok Hw)).
  rewrite (proj1 (tokenize_unspaced (infix e)) Hu).
  rewrite (toPostfix_infix_postfix fuel e Hok Hg Hfuel). cbn [option_map].
  unfold evaluateExpression, eval_loop. now rewrite eval_postfix.
Qed.

(** ["( 1 + 2 ) * 3"] and ["(1+2)*3"] *)
Lemma calculate_expression_witness :
  tokens_ok (Bin "*" (Paren (Bin "+" (Lit "1") (Lit "2"))) (Lit "3")) = true
  /\ grouped (Bin "*" (Paren (Bin "+" (Lit "1") (Lit "2"))) (Lit "3")) = true
  /\ literals_are_words (Bin "*" (Paren (Bin "+" (Lit "1") (Lit "2"))) (Lit "3")) = true
  /\ calculate (fun _ _ => NaN) 7 "( 1 + 2 ) * 3"
     = Some (JNumber (mul (add (StringToNumber "1") (StringToNumber "2"))
                          (StringToNumber "3")))
  /\ calculate (fun _ _ => NaN) 7 "(1+2)*3"
     = Some (JNumber (mul (add (StringToNumber "1") (StringToNumber "2"))
                          (StringToNumber "3"))).
Proof.
  split; [reflexivity | split; [reflexivity | split; [reflexivity |]]].
  apply (calculate_expression (fun _ _ => NaN) 7
           (Bin "*" (Paren (Bin "+" (Lit "1") (Lit "2"))) (Lit "3")));
    [reflexivity | reflexivity | reflexivity | simpl; lia].
Defined.

(** ** More on the tokenizer *)

(** After [space_out] a separator stands alone between two spaces: the
    first fragment has no separator and every later one is a separator
    or has none. *)
Lemma spaced_fragments (s : string) :
  exists f fs,
    split " " (space_out s) = f :: fs
    /\ contains isSeparator f = false
    /\ Forall (fun t => is_separator_token t = true \/ contains isSeparator t = false) fs.
Proof.
  induction s as [|c s (f & fs & Hs & Hf & Hfs)].
  - exists EmptyString, []. repeat split. constructor.
  - cbn [space_out]. destruct (isSeparator c) eqn:Ec.
    + destruct (separator_not_space c Ec) as [Hsp _]. unfold is_space in Hsp.
      exists EmptyString, (String c EmptyString :: f :: fs).
      cbn [split]. rewrite Ascii.eqb_refl, Hsp, Hs.
      split; [reflexivity | split; [reflexivity |]].
      constructor; [left; exact Ec |]. constructor; [now right | exact Hfs].
    + cbn [split]. rewrite Hs. destruct (Ascii.eqb c " ").
      * exists EmptyString, (f :: fs).
        split; [reflexivity | split; [reflexivity |]].
        constructor; [now right | exact Hfs].
      * exists (String c f), fs.
        split; [reflexivity | split; [| exact Hfs]].
        cbn [contains]. now rewrite Ec, Hf.
Qed.

Lemma tokens_shape (expression : string) :
  Forall (fun token => is_separator_token token = true \/ is_word token = true)
         (tokenizeExpression expression).
Proof.
  apply Forall_forall. intros token Hin.
  unfold tokenizeExpression in Hin. apply filter_In in Hin.
  destruct Hin as [Hin Hblank].
  pose proof (split_fragments " " _ _ Hin) as Hsp.
  destruct (spaced_fragments expression) as (f & fs & Hs & Hf & Hfs).
  rewrite Hs in Hin.
  assert (Hshape : is_separator_token token = true \/ contains isSeparator token = false).
  { destruct Hin as [<- | Hin]; [now right |].
    rewrite Forall_forall in Hfs. now apply Hfs. }
  destruct Hshape as [H | H]; [now left | right].
  unfold is_word. fold is_space in Hsp.
  change (contains (fun c => Ascii.eqb c " ") token) with (contains is_space token) in Hsp.
  now rewrite H, Hsp, Hblank.
Qed.

(** X3: Every token is one operator or parenthesis, or a word without
    any. *)
Theorem tokens_are_separators_or_words (expression : string) :
  Forall (fun token => is_separator_token token = true \/ is_word token = true)
         (tokenizeExpression expression).
Proof. apply tokens_shape. Qed.

(** X4: Tokenizing is idempotent: the tokens, written with one space
    between them, are tokenized into themselves. *)
Theorem tokenize_round_trip (expression : string) :
  tokenizeExpression (String.concat " " (tokenizeExpression expression))
  = tokenizeExpression expression.
Proof. apply tokenize_spaced, tokens_shape. Qed.

Lemma strip_app (p : ascii -> bool) (a b : string) :
  strip p (a ++ b) = (strip p a ++ strip p b)%string.
Proof.
  induction a as [|c a IH]; cbn [append strip]; [reflexivity |].
  destruct (p c); cbn [append]; now rewrite IH.
Qed.

(** A string trims to the empty string exactly when it has white space
    only. *)
Lemma trim_empty_iff (t : string) :
  trim t = EmptyString <-> strip isWhiteSpace t = EmptyString.
Proof.
  induction t as [|c t IH]; [tauto |].
  unfold trim in *. cbn [trimStart strip].
  destruct (isWhiteSpace c) eqn:E; [exact IH |].
  cbn [trimEnd]. rewrite E.
  split; [destruct (trimEnd t); discriminate | discriminate].
Qed.

Lemma strip_space_out (s : string) :
  strip isWhiteSpace (space_out s) = strip isWhiteSpace s.
Proof.
  induction s as [|c s IH]; [reflexivity |].
  cbn [space_out]. destruct (isSeparator c) eqn:Ec.
  - destruct (separator_not_space c Ec) as [_ Hws].
    cbn [strip]. rewrite Hws. change (isWhiteSpace " ") with true. cbv iota.
    now rewrite IH.
  - cbn [strip]. now rewrite IH.
Qed.

Lemma strip_concat_split (s : string) :
  strip isWhiteSpace (String.concat "" (split " " s)) = strip isWhiteSpace s.
Proof.
  induction s as [|c s IH]; [reflexivity |].
  cbn [split]. destruct (Ascii.eqb c " ") eqn:Ec.
  - apply Ascii.eqb_eq in Ec. subst c.
    rewrite concat_unspaced_cons. cbn [append strip].
    change (isWhiteSpace " ") with true. cbv iota. exact IH.
  - destruct (split " " s) as [|f fs] eqn:Es; [now elim (split_not_nil " " s) |].
    rewrite concat_unspaced_cons in *. cbn [append strip]. now rewrite IH.
Qed.

Lemma strip_concat_filter (l : list string) :
  strip isWhiteSpace
    (String.concat "" (filter (fun token => negb (String.eqb (trim token) "")) l))
  = strip isWhiteSpace (String.concat "" l).
Proof.
  induction l as [|t l IH]; [reflexivity |].
  cbn [filter]. destruct (String.eqb (trim t) "") eqn:E; cbn [negb].
  - apply String.eqb_eq, trim_empty_iff in E.
    rewrite concat_unspaced_cons, strip_app, E. exact IH.
  - rewrite !concat_unspaced_cons, !strip_app. now rewrite IH.
Qed.

Lemma strip_tokens (expression : string) :
  strip isWhiteSpace (String.concat "" (tokenizeExpression expression))
  = strip isWhiteSpace expression.
Proof.
  unfold tokenizeExpression.
  now rewrite strip_concat_filter, strip_concat_split, strip_space_out.
Qed.

(** X5: No character is lost or moved but white space: the tokens, one
    after the other, are the text without its white space. *)
Theorem tokens_keep_visible_characters (expression : string) :
  strip isWhiteSpace (String.concat "" (tokenizeExpression expression))
  = strip isWhiteSpace expression.
Proof. apply strip_tokens. Qed.

(** X6: There is no token exactly when the text trims to the empty
    string. *)
Theorem no_token_iff_blank (expression : string) :
  tokenizeExpression expression = [] <-> trim expression = EmptyString.
Proof.
  rewrite trim_empty_iff, <- strip_tokens. split.
  - now intros ->.
  - intros H. destruct (tokenizeExpression expression) as [|t ts] eqn:E; [reflexivity |].
    exfalso.
    assert (Hin : In t (tokenizeExpression expression)) by (rewrite E; now left).
    unfold tokenizeExpression in Hin. apply filter_In in Hin. destruct Hin as [_ Hb].
    apply negb_true_iff, String.eqb_neq in Hb. apply Hb, trim_empty_iff.
    rewrite concat_unspaced_cons, strip_app in H.
    destruct (strip isWhiteSpace t); [reflexivity | discriminate H].
Qed.

(** X1: The tokens of a text are those of its parts before and after a
    space. *)
Theorem tokenize_splits_at_space (a b : string) :
  tokenizeExpression (a ++ String " " b)
  = tokenizeExpression a ++ tokenizeExpression b.
Proof. apply tokenize_app_space. Qed.

(** X2: Wherever it stands, an operator or a parenthesis is a token of its
    own, between the tokens of what is before it and of what is after
    it. *)
Theorem separator_is_a_token (c : ascii) (a b : string) :
  isSeparator c = true ->
  tokenizeExpression (a ++ String c b)
  = tokenizeExpression a ++ String c EmptyString :: tokenizeExpression b.
Proof. apply tokenize_separator. Qed.

(** ["12*(3"] *)
Lemma separator_is_a_token_witness :
  isSeparator "*" = true
  /\ tokenizeExpression "12*(3"
     = tokenizeExpression "12" ++ "*" :: tokenizeExpression "(3".
Proof.
  split; [reflexivity |].
  exact (separator_is_a_token "*" "12" "(3" eq_refl).
Defined.

(** ** [parseExpression] *)

Example parseExpression_example : parseExpression "5 * 5" = JNumber (of_Z 25).
Proof. reflexivity. Qed.

(** Code unit by code unit: without another case the upper case is the
    lower case, and with one the two differ from their first code
    unit. *)
Lemma case_of_unit (c : ascii) :
  if has_case c
  then match upper_unit c with
       | u :: _ => (lower_unit c =? u) = false
       | [] => False
       end
  else upper_unit c = [lower_unit c].
Proof.
  destruct c as [[] [] [] [] [] [] [] []]; vm_compute; reflexivity.
Qed.

Lemma case_differs (e : string) :
  units_eqb (toLowerCase e) (toUpperCase e) = negb (contains has_case e).
Proof.
  induction e as [|c e IH]; [reflexivity |].
  cbn [toLowerCase toUpperCase contains].
  pose proof (case_of_unit c) as Hc. destruct (has_case c).
  - destruct (upper_unit c) as [|u rest]; [contradiction |].
    cbn [app units_eqb orb negb]. now rewrite Hc.
  - rewrite Hc. cbn [app units_eqb orb]. now rewrite Z.eqb_refl, IH.
Qed.

Lemma letter_found_spec (l : list string) :
  letter_found l = existsb (contains has_case) l.
Proof.
  induction l as [|e l IH]; [reflexivity |].
  cbn [letter_found existsb]. rewrite case_differs, negb_involutive, IH.
  now destruct (contains has_case e).
Qed.

Lemma contains_app (p : ascii -> bool) (a b : string) :
  contains p (a ++ b) = contains p a || contains p b.
Proof.
  induction a as [|c a IH]; [reflexivity |].
  cbn [append contains]. now rewrite IH, orb_assoc.
Qed.

(** A character other than the separator is in one of the fragments. *)
Lemma contains_split (p : ascii -> bool) (sep : ascii) (s : string) :
  p sep = false ->
  existsb (contains p) (split sep s) = contains p s.
Proof.
  intros Hsep. induction s as [|c s IH]; [reflexivity |].
  cbn [split contains]. destruct (Ascii.eqb c sep) eqn:E.
  - apply Ascii.eqb_eq in E. subst c. cbn [existsb contains]. now rewrite Hsep, IH.
  - destruct (split sep s) as [|f fs] eqn:Es; [now elim (split_not_nil sep s) |].
    cbn [existsb contains] in *. now rewrite <- IH, orb_assoc.
Qed.

Lemma not_the_error_message (e0 x : string) :
  contains has_case e0 = false ->
  (e0 ++ x)%string = "Error - expression contains letter" ->
  x = "Error - expression contains letter".
Proof.
  destruct e0 as [|c e0]; [now intros _ H |].
  cbn [contains append]. intros Hc H. injection H as -> _. discriminate Hc.
Qed.

(** X18: The error message is returned exactly for a text with a letter in
    it, and nothing else is ever taken for it. *)
Theorem parseExpression_error_iff (expression : string) :
  parseExpression expression = JString "Error - expression contains letter"
  <-> contains has_case expression = true.
Proof.
  unfold parseExpression.
  rewrite letter_found_spec.
  pose proof (contains_split has_case " " expression eq_refl) as Hsplit.
  destruct (contains has_case expression) eqn:E; rewrite Hsplit.
  - tauto.
  - split; [| discriminate]. intros H. exfalso.
    destruct (split " " expression) as [|e0 tl] eqn:Es;
      [now elim (split_not_nil " " expression) |].
    cbn [existsb] in Hsplit. apply orb_false_iff in Hsplit. destruct Hsplit as [H0 Htl].
    cbv zeta in H.
    change (nth_error (e0 :: tl) 0) with (Some e0) in H.
    change (nth_error (e0 :: tl) 1) with (nth_error tl 0) in H.
    change (nth_error (e0 :: tl) 2) with (nth_error tl 1) in H.
    assert (Hplus : forall e2 : option string,
              (forall t, e2 = Some t -> contains has_case t = false) ->
              plus_elements (Some e0) e2 <> JString "Error - expression contains letter").
    { intros [t |] Ht; cbn [plus_elements]; intros [= Heq];
        apply (not_the_error_message e0 _ H0) in Heq.
      - subst t. now specialize (Ht _ eq_refl).
      - discriminate Heq. }
    assert (Hnth : forall t, nth_error tl 1 = Some t -> contains has_case t = false).
    { intros t Ht. apply nth_error_In in Ht.
      destruct (contains has_case t) eqn:Et; [| reflexivity].
      assert (existsb (contains has_case) tl = true)
        by (apply existsb_exists; now exists t).
      congruence. }
    destruct (element_is (nth_error tl 0) "+"); [exact (Hplus _ Hnth H) |].
    destruct (element_is (nth_error tl 0) "-"); [discriminate |].
    destruct (element_is (nth_error tl 0) "*"); [discriminate |].
    destruct (element_is (nth_error tl 0) "/"); discriminate.
Qed.

Lemma split_three (a op b : string) :
  contains is_space a = false -> contains is_space op = false ->
  contains is_space b = false ->
  split " " (a ++ String " " (op ++ String " " b)) = [a; op; b].
Proof.
  intros Ha Hop Hb.
  now rewrite !split_app_sep, !split_no_sep by assumption.
Qed.

(** X19: On two fields around an operator: [+] joins the fields as strings,
    while [-], [*] and [/] work on the Numbers they convert to. *)
Theorem parseExpression_binary (a b : string) :
  contains is_space a = false -> contains has_case a = false ->
  contains is_space b = false -> contains has_case b = false ->
  parseExpression (a ++ " + " ++ b) = JString (a ++ b)
  /\ parseExpression (a ++ " - " ++ b)
     = JNumber (sub (StringToNumber a) (StringToNumber b))
  /\ parseExpression (a ++ " * " ++ b)
     = JNumber (mul (StringToNumber a) (StringToNumber b))
  /\ parseExpression (a ++ " / " ++ b)
     = JNumber (div (StringToNumber a) (StringToNumber b)).
Proof.
  intros Ha Hca Hb Hcb.
  assert (H : forall op : string,
            contains is_space op = false -> contains has_case op = false ->
            split " " (a ++ String " " (op ++ String " " b)) = [a; op; b]
            /\ letter_found [a; op; b] = false).
  { intros op Hop Hcop. split; [now apply split_three |].
    rewrite letter_found_spec. cbn [existsb]. now rewrite Hca, Hcop, Hcb. }
  unfold parseExpression.
  repeat split.
  - destruct (H "+" eq_refl eq_refl) as [Hs Hl].
    cbn [append] in Hs |- *. now rewrite Hs, Hl.
  - destruct (H "-" eq_refl eq_refl) as [Hs Hl].
    cbn [append] in Hs |- *. now rewrite Hs, Hl.
  - destruct (H "*" eq_refl eq_refl) as [Hs Hl].
    cbn [append] in Hs |- *. now rewrite Hs, Hl.
  - destruct (H "/" eq_refl eq_refl) as [Hs Hl].
    cbn [append] in Hs |- *. now rewrite Hs, Hl.
Qed.

Lemma parseExpression_binary_witness :
  contains is_space "5" = false /\ contains has_case "5" = false
  /\ parseExpression "5 + 5" = JString "55"
  /\ parseExpression "5 - 5" = JNumber (sub (StringToNumber "5") (StringToNumber "5"))
  /\ parseExpression "5 * 5" = JNumber (mul (StringToNumber "5") (StringToNumber "5"))
  /\ parseExpression "5 / 5" = JNumber (div (StringToNumber "5") (StringToNumber "5")).
Proof.
  split; [reflexivity | split; [reflexivity |]].
  exact (parseExpression_binary "5" "5" eq_refl eq_refl eq_refl eq_refl).
Defined.

(** X20: Without a space there is one field only and no operator is found:
    the result is [undefined]. *)
Theorem parseExpression_needs_spaces (expression : string) :
  contains is_space expression = false ->
  contains has_case expression = false ->
  parseExpression expression = JUndefined.
Proof.
  intros Hsp Hc. unfold parseExpression.
  rewrite split_no_sep by exact Hsp.
  rewrite letter_found_spec. cbn [existsb]. now rewrite Hc.
Qed.

Lemma parseExpression_needs_spaces_witness :
  contains is_space "5*5" = false
  /\ contains has_case "5*5" = false
  /\ parseExpression "5*5" = JUndefined.
Proof.
  split; [reflexivity | split; [reflexivity |]].
  exact (parseExpression_needs_spaces "5*5" eq_refl eq_refl).
Defined.
